(** * PIDNetwork: the GTFS stop graph of [src/01/prague_dataset.py]

    A shallow embedding of [PIDNetwork._build_graph] and
    [PIDNetwork._parse_gtfs_time], and the properties of the graph they
    build.

    Conventions of the embedding.
    - A CSV row (a [dict] of [csv.DictReader]) is a finite map from column
      names to text, [gmap string string]; a column missing from the file
      is an absent key.
    - Python [str] is [string] (the UTF-8 bytes of the text, whose order
      byte by byte is the order of the code points); [int()] and
      [float()] are embedded on their ASCII syntax.
    - Python [int] is [Z]; the interpreter's limit on the number of
      digits [int()] converts is not part of the embedding.
    - Python [float] is embedded by exact rationals ([Qc]): the travel
      times only arise from integer arithmetic, and a decimal coordinate
      text denotes its exact value.  Rounding to binary64 and overflow
      are not part of the embedding.
    - Exceptions are explicit: a computation returns [Ok v] or [Raise e].
    - [dict]s that are only read by key are [gmap]s; the [defaultdict]
      that is iterated, [times_by_trip], is an association list in
      insertion order.
    - [networkx.MultiDiGraph] is the record [graph]: nodes in insertion
      order with their attributes, and one entry per parallel edge. *)

From Stdlib Require Import ZArith QArith Qcanon Ascii String List Sorting.Sorted Sorting.Permutation.
From stdpp Require Import gmap strings list fin_maps sorting pretty.

Local Open Scope Z_scope.
Local Open Scope string_scope.

(** ** Exceptions *)

Inductive exn : Type :=
| KeyError (key : string)
| ValueError.

Inductive result (A : Type) : Type :=
| Ok (a : A)
| Raise (e : exn).
Arguments Ok {A} a.
Arguments Raise {A} e.

Definition rbind {A B : Type} (c : result A) (k : A → result B) : result B :=
  match c with
  | Ok a => k a
  | Raise e => Raise e
  end.

Notation "'let*' x ':=' c 'in' k" := (rbind c (fun x => k))
  (at level 10, x pattern, c at level 100, k at level 200).

(** A [for] loop whose body may raise: the state is threaded from left to
    right and the first exception ends the loop. *)
Fixpoint for_each {A S : Type} (body : S → A → result S) (xs : list A) (s : S) : result S :=
  match xs with
  | [] => Ok s
  | x :: xs' => let* s' := body s x in for_each body xs' s'
  end.

(** A comprehension [[f(x) for x in xs]] whose element expression may raise. *)
Fixpoint map_each {A B : Type} (f : A → result B) (xs : list A) : result (list B) :=
  match xs with
  | [] => Ok []
  | x :: xs' => let* y := f x in let* ys := map_each f xs' in Ok (y :: ys)
  end.

(** ** Rows *)

Abbreviation row := (gmap string string).

(** [row[k]] *)
Definition getitem (r : row) (k : string) : result string :=
  match r !! k with
  | Some v => Ok v
  | None => Raise (KeyError k)
  end.

(** [row.get(k, d)] *)
Definition get_default (r : row) (k d : string) : string := default d (r !! k).

(** Truth value of [row.get(k)]: [None] and the empty text are false. *)
Definition truthy (o : option string) : bool :=
  match o with
  | Some (String _ _) => true
  | _ => false
  end.

(** ** Text *)

(** [text.split(sep)] for a one-character separator: one field more than
    there are separators. *)
Fixpoint split (sep : ascii) (s : string) : list string :=
  match s with
  | EmptyString => [EmptyString]
  | String c s' =>
      if Ascii.eqb c sep then EmptyString :: split sep s'
      else match split sep s' with
           | f :: fs => String c f :: fs
           | [] => [String c EmptyString]
           end
  end.

(** The characters [int()] and [float()] strip: tab, line feed, vertical
    tab, form feed, carriage return and space. *)
Definition is_space (c : ascii) : bool :=
  let n := N_of_ascii c in ((9 <=? n) && (n <=? 13) || (n =? 32))%N.

Definition digit_of (c : ascii) : option Z :=
  let n := N_of_ascii c in
  if ((48 <=? n) && (n <=? 57))%N then Some (Z.of_N n - 48) else None.

Definition is_digit (c : ascii) : bool :=
  match digit_of c with Some _ => true | None => false end.

Fixpoint lstrip (s : string) : string :=
  match s with
  | String c s' => if is_space c then lstrip s' else s
  | EmptyString => EmptyString
  end.

Fixpoint rstrip (s : string) : string :=
  match s with
  | EmptyString => EmptyString
  | String c s' =>
      match rstrip s' with
      | EmptyString => if is_space c then EmptyString else String c EmptyString
      | t => String c t
      end
  end.

Definition strip (s : string) : string := rstrip (lstrip s).

(** Digits with single underscores between them, read in base ten:
    [acc] is the value read so far, [prev_digit] tells whether the
    previous character was a digit. *)
Fixpoint digits_value (acc : Z) (prev_digit : bool) (s : string) : option Z :=
  match s with
  | EmptyString => if prev_digit then Some acc else None
  | String c s' =>
      match digit_of c with
      | Some d => digits_value (10 * acc + d) true s'
      | None =>
          if Ascii.eqb c "_"%char && prev_digit then digits_value acc false s'
          else None
      end
  end.

(** [int(text)]: surrounding space stripped, an optional sign, then
    decimal digits.  [None] stands for [ValueError]. *)
Definition int_literal (s : string) : option Z :=
  match strip s with
  | String "-" body => Z.opp <$> digits_value 0 false body
  | String "+" body => digits_value 0 false body
  | body => digits_value 0 false body
  end.

Definition py_int (s : string) : result Z :=
  match int_literal s with
  | Some n => Ok n
  | None => Raise ValueError
  end.

(** ** [PIDNetwork._parse_gtfs_time] *)

(** [Ok None] is the Python [None] that marks an unparseable time. *)
Definition _parse_gtfs_time (time_text : string) : result (option Z) :=
  if String.eqb time_text "" then Ok None
  else
    match split ":" time_text with
    | [p0; p1; p2] =>
        let* hours := py_int p0 in
        let* minutes := py_int p1 in
        let* seconds := py_int p2 in
        Ok (Some (hours * 3600 + minutes * 60 + seconds))
    | _ => Ok None
    end.

(** ** [float()] *)

(** The value of a Python [float]: a number, an infinity or not-a-number. *)
Inductive pyfloat : Type :=
| FNum (q : Qc)
| FInf (negative : bool)
| FNan.

Definition is_finite (x : pyfloat) : bool :=
  match x with FNum _ => true | _ => false end.

Definition lower (c : ascii) : ascii :=
  let n := N_of_ascii c in
  if ((65 <=? n) && (n <=? 90))%N then ascii_of_N (n + 32) else c.

Fixpoint lower_string (s : string) : string :=
  match s with
  | EmptyString => EmptyString
  | String c s' => String (lower c) (lower_string s')
  end.

(** An underscore is allowed only between two digits; the text is then
    read with its underscores removed.  [prev] is the previous character. *)
Fixpoint remove_underscores (prev : option ascii) (s : string) : option string :=
  match s with
  | EmptyString =>
      match prev with
      | Some "_"%char => None
      | _ => Some EmptyString
      end
  | String c s' =>
      if Ascii.eqb c "_"%char then
        match prev with
        | Some p => if is_digit p then remove_underscores (Some c) s' else None
        | None => None
        end
      else
        match prev with
        | Some "_"%char => if is_digit c then String c <$> remove_underscores (Some c) s' else None
        | _ => String c <$> remove_underscores (Some c) s'
        end
  end.

(** The longest prefix of digits, as the list of their values, and the rest. *)
Fixpoint take_digits (s : string) : list Z * string :=
  match s with
  | EmptyString => ([], EmptyString)
  | String c s' =>
      match digit_of c with
      | Some d => let '(ds, r) := take_digits s' in (d :: ds, r)
      | None => ([], s)
      end
  end.

Definition digits_to_Z (ds : list Z) : Z := fold_left (λ acc d, 10 * acc + d) ds 0.

Definition pow10 (e : Z) : Qc :=
  if (0 <=? e)%Z then Q2Qc (inject_Z (10 ^ e)) else Q2Qc (1 # Z.to_pos (10 ^ (- e))).

Definition take_sign (s : string) : bool * string :=
  match s with
  | String "-" r => (true, r)
  | String "+" r => (false, r)
  | _ => (false, s)
  end.

(** [digits [. digits] [(e|E) [sign] digits]] with a digit in the mantissa. *)
Definition decimal_literal (s : string) : option Qc :=
  let '(ip, r1) := take_digits s in
  let '(fp, r2) := match r1 with
                   | String "." r => take_digits r
                   | _ => ([], r1)
                   end in
  match (ip ++ fp)%list with
  | [] => None
  | _ =>
      let mant := Q2Qc (inject_Z (digits_to_Z (ip ++ fp)%list)) in
      let scale := - Z.of_nat (length fp) in
      match r2 with
      | EmptyString => Some (mant * pow10 scale)%Qc
      | String c r3 =>
          if Ascii.eqb (lower c) "e"%char then
            let '(eneg, r4) := take_sign r3 in
            match take_digits r4 with
            | ((_ :: _) as ed, EmptyString) =>
                let e := digits_to_Z ed in
                Some (mant * pow10 ((if eneg then - e else e) + scale))%Qc
            | _ => None
            end
          else None
      end
  end.

(** [float(text)]; [None] stands for [ValueError]. *)
Definition float_literal (s : string) : option pyfloat :=
  match remove_underscores None (strip s) with
  | None => None
  | Some t =>
      let '(neg, body) := take_sign t in
      let word := lower_string body in
      if String.eqb word "inf" || String.eqb word "infinity" then Some (FInf neg)
      else if String.eqb word "nan" then Some FNan
      else (λ q, FNum (if neg then - q else q)%Qc) <$> decimal_literal body
  end.

(** ** The feed and the graph *)

(** The four tables [PIDNetwork.__init__] reads. *)
Record PIDNetwork : Type := {
  stops : list row;
  stop_times : list row;
  trips : list row;
  routes : list row;
}.

(** One element of a trip's list in [times_by_trip]. *)
Record visit : Type := {
  stop_name : string;
  arrival : string;
  departure : string;
}.

(** One parallel edge of the [MultiDiGraph]: [e_key] is the key
    [add_edge] gives it, the number of edges already between the two
    nodes. *)
Record edge : Type := {
  e_from : string;
  e_to : string;
  e_key : nat;
  avg_time_min : Qc;
}.

(** Node attributes: [None] is the empty attribute dict, [Some (x, y)] is
    [{"x": x, "y": y}]. *)
Record graph : Type := {
  nodes : list (string * option (pyfloat * pyfloat));
  edges : list edge;
}.

Definition empty_graph : graph := {| nodes := []; edges := [] |}.

Definition has_node (g : graph) (n : string) : bool :=
  bool_decide (n ∈ (nodes g).*1).

Definition add_node (g : graph) (n : string) : graph :=
  if has_node g n then g
  else {| nodes := (nodes g ++ [(n, None)])%list; edges := edges g |}.

Definition edge_between (u v : string) (e : edge) : bool :=
  bool_decide (e_from e = u) && bool_decide (e_to e = v).

(** [graph.add_edge(u, v, avg_time_min=w)]: both end points become nodes,
    and a new parallel edge is added whatever edges exist already. *)
Definition add_edge (g : graph) (u v : string) (w : Qc) : graph :=
  let g' := add_node (add_node g u) v in
  {| nodes := nodes g';
     edges := (edges g' ++
       [{| e_from := u; e_to := v;
           e_key := length (filter (λ e, edge_between u v e = true) (edges g'));
           avg_time_min := w |}])%list |}.

(** [nx.set_node_attributes(graph, values)]: names that are no node of
    the graph are passed over. *)
Definition set_node_attributes (g : graph) (values : gmap string (pyfloat * pyfloat)) : graph :=
  {| nodes := (λ na, match values !! na.1 with
                     | Some xy => (na.1, Some xy)
                     | None => na
                     end) <$> nodes g;
     edges := edges g |}.

(** ** [PIDNetwork._build_graph], stage by stage *)

(** [row.get(k) in ids] for a set of texts: [None] is in no such set. *)
Definition get_in (r : row) (k : string) (ids : gset string) : bool :=
  match r !! k with
  | Some v => bool_decide (v ∈ ids)
  | None => false
  end.

Definition route_types : gset string := {[ "0"; "1" ]}.

(** Lines 72-74: one row of the set comprehension over [self.routes]. *)
Definition route_step (acc : gset string) (r : row) : result (gset string) :=
  if get_in r "route_type" route_types
  then let* route_id := getitem r "route_id" in Ok (acc ∪ {[ route_id ]})
  else Ok acc.

(** Lines 71-75. *)
Definition selected_route_ids (rs : list row) : result (gset string) :=
  for_each route_step rs ∅.

(** Lines 79-85: the body of the loop over [self.trips]. *)
Definition select_trip (ids : gset string)
    (selected_trips : gmap (string * string) string) (r : row)
    : result (gmap (string * string) string) :=
  let direction_id := get_default r "direction_id" "" in
  match r !! "route_id" with
  | None => Ok selected_trips
  | Some route_id =>
      if negb (bool_decide (route_id ∈ ids)) then Ok selected_trips
      else
        let key := (route_id, direction_id) in
        match selected_trips !! key with
        | Some _ => Ok selected_trips
        | None => let* trip_id := getitem r "trip_id" in Ok (<[key := trip_id]> selected_trips)
        end
  end.

(** Lines 77-85. *)
Definition selected_trips (ids : gset string) (ts : list row)
    : result (gmap (string * string) string) :=
  for_each (select_trip ids) ts ∅.

(** Line 87. *)
Definition selected_trip_ids (sel : gmap (string * string) string) : gset string :=
  map_img sel.

Definition valid_zone_ids : gset string := {[ "0"; "P"; "B"; "0,B"; "P,0" ]}.

(** Lines 90-94. *)
Definition stop_rows (ss : list row) : list row :=
  filter (λ r, get_in r "zone_id" valid_zone_ids && truthy (r !! "stop_name") = true) ss.

(** Lines 97-99: one row of the dict comprehension. *)
Definition stop_name_step (acc : gmap string string) (r : row) : result (gmap string string) :=
  if truthy (r !! "stop_id") && truthy (r !! "stop_name")
  then let* k := getitem r "stop_id" in
       let* v := getitem r "stop_name" in
       Ok (<[k := v]> acc)
  else Ok acc.

(** Lines 96-100: a later row with the same [stop_id] overwrites. *)
Definition stop_name_by_id (rows : list row) : result (gmap string string) :=
  for_each stop_name_step rows ∅.

(** [row.get(k) or ""] *)
Definition get_or_empty (r : row) (k : string) : string := default "" (r !! k).

(** Lines 104-116: the body of the loop that fills [stop_info_by_name]. *)
Definition stop_info_step (info : gmap string (pyfloat * pyfloat)) (r : row)
    : result (gmap string (pyfloat * pyfloat)) :=
  let* name := getitem r "stop_name" in
  match info !! name with
  | Some _ => Ok info
  | None =>
      let lon_text := get_or_empty r "stop_lon" in
      let lat_text := get_or_empty r "stop_lat" in
      if String.eqb lon_text "" || String.eqb lat_text "" then Ok info
      else
        match float_literal lon_text with
        | None => Ok info
        | Some lon_value =>
            match float_literal lat_text with
            | None => Ok info
            | Some lat_value => Ok (<[name := (lon_value, lat_value)]> info)
            end
        end
  end.

(** Lines 102-116. *)
Definition stop_info_by_name (rows : list row) : result (gmap string (pyfloat * pyfloat)) :=
  for_each stop_info_step rows ∅.

(** Lines 118-123. *)
Definition selected_stop_times (trip_ids : gset string) (names : gmap string string)
    (sts : list row) : list row :=
  filter (λ r, get_in r "trip_id" trip_ids && get_in r "stop_id" (dom names) = true) sts.

(** Line 127: the sort key of a row. *)
Definition sort_key (r : row) : result (string * Z) :=
  let* trip_id := getitem r "trip_id" in
  let* seq_text := getitem r "stop_sequence" in
  let* seq := py_int seq_text in
  Ok (trip_id, seq).

(** [<] on the key tuples: texts compare by code point, then the
    integers. *)
Definition key_lt (k1 k2 : string * Z) : bool :=
  match String.compare k1.1 k2.1 with
  | Lt => true
  | Eq => (k1.2 <? k2.2)%Z
  | Gt => false
  end.

(** [sorted] is stable: [x], which comes before everything in [l] in
    the input, is put before the first element that is not smaller. *)
Fixpoint insert_sorted {A : Type} (x : (string * Z) * A) (l : list ((string * Z) * A))
    : list ((string * Z) * A) :=
  match l with
  | [] => [x]
  | y :: l' => if key_lt y.1 x.1 then y :: insert_sorted x l' else x :: l
  end.

Fixpoint sort_decorated {A : Type} (l : list ((string * Z) * A)) : list ((string * Z) * A) :=
  match l with
  | [] => []
  | x :: l' => insert_sorted x (sort_decorated l')
  end.

(** Lines 125-128: every key is computed first, in input order, then the
    rows are sorted by key. *)
Definition sorted_stop_times (rows : list row) : result (list row) :=
  let* decorated := map_each (λ r, let* k := sort_key r in Ok (k, r)) rows in
  Ok (sort_decorated decorated).*2.

(** [d[k].append(v)] on a [defaultdict(list)] that keeps insertion order. *)
Fixpoint append_at {V : Type} (k : string) (v : V) (d : list (string * list V))
    : list (string * list V) :=
  match d with
  | [] => [(k, [v])]
  | (k', vs) :: d' =>
      if decide (k = k') then (k', (vs ++ [v])%list) :: d'
      else (k', vs) :: append_at k v d'
  end.

(** Lines 130-138. *)
Definition times_by_trip (names : gmap string string) (sorted_rows : list row)
    : result (list (string * list visit)) :=
  for_each (λ acc r,
    let* trip_id := getitem r "trip_id" in
    let* stop_id := getitem r "stop_id" in
    match names !! stop_id with
    | None => Raise (KeyError stop_id)
    | Some name =>
        Ok (append_at trip_id
              {| stop_name := name;
                 arrival := get_default r "arrival_time" "";
                 departure := get_default r "departure_time" "" |} acc)
    end) sorted_rows [].

(** [zip(rows, rows[1:])] *)
Definition consecutive {A : Type} (l : list A) : list (A * A) := zip l (tail l).

(** Line 149: [(arr_seconds - dep_seconds) / 60.0] *)
Definition travel_time_min (dep_seconds arr_seconds : Z) : Qc :=
  (Q2Qc (inject_Z (arr_seconds - dep_seconds)) / Q2Qc (inject_Z 60))%Qc.

Definition Qc_ltb (x y : Qc) : bool :=
  match (x ?= y)%Qc with Lt => true | _ => false end.

(** Lines 143-152: what one consecutive pair appends to [segment_times];
    [Ok None] is [continue]. *)
Definition segment_sample (current_row next_row : visit) : result (option Qc) :=
  let* dep_seconds := _parse_gtfs_time (departure current_row) in
  let* arr_seconds := _parse_gtfs_time (arrival next_row) in
  match dep_seconds, arr_seconds with
  | Some dep, Some arr =>
      let t := travel_time_min dep arr in
      if Qc_ltb t 0%Qc then Ok None else Ok (Some t)
  | _, _ => Ok None
  end.

(** [segment_times[pair].append(t)] *)
Definition append_sample (pair : string * string) (t : Qc)
    (st : gmap (string * string) (list Qc)) : gmap (string * string) (list Qc) :=
  <[pair := (default [] (st !! pair) ++ [t])%list]> st.

Definition segment_step (st : gmap (string * string) (list Qc)) (p : visit * visit)
    : result (gmap (string * string) (list Qc)) :=
  let* sample := segment_sample p.1 p.2 in
  match sample with
  | Some t => Ok (append_sample (stop_name p.1, stop_name p.2) t st)
  | None => Ok st
  end.

(** Lines 140-152: for every trip, for every consecutive pair of its
    visits. *)
Definition segment_times (tbt : list (string * list visit))
    : result (gmap (string * string) (list Qc)) :=
  for_each (λ st kv, for_each segment_step (consecutive kv.2) st) tbt ∅.

(** [sum(values)]: from [0], left to right. *)
Definition py_sum (values : list Qc) : Qc := fold_left Qcplus values 0%Qc.

Definition mean (values : list Qc) : Qc :=
  (py_sum values / Q2Qc (inject_Z (Z.of_nat (length values))))%Qc.

(** Lines 154-158. *)
Definition avg_segment_time (st : gmap (string * string) (list Qc))
    : gmap (string * string) Qc :=
  omap (λ values, match values with [] => None | _ => Some (mean values) end) st.

(** Lines 164-171: the body of the inner loop that adds the edges, for
    the pair [(from_stop, to_stop)] of stop names. *)
Definition edge_step (avg : gmap (string * string) Qc) (g : graph) (p : string * string) : graph :=
  let from_stop := p.1 in
  let to_stop := p.2 in
  match avg !! (from_stop, to_stop) with
  | None => g
  | Some avg_time => add_edge g from_stop to_stop avg_time
  end.

(** Lines 160-171: for every trip, for every consecutive pair of its
    stop names. *)
Definition add_edges (avg : gmap (string * string) Qc) (tbt : list (string * list visit)) : graph :=
  fold_left (λ g kv,
    let stop_names := stop_name <$> kv.2 in
    fold_left (edge_step avg) (consecutive stop_names) g) tbt empty_graph.

(** Lines 140-174, from [times_by_trip] on. *)
Definition graph_of_times (tbt : list (string * list visit))
    (info : gmap string (pyfloat * pyfloat)) : result graph :=
  let* st := segment_times tbt in
  Ok (set_node_attributes (add_edges (avg_segment_time st) tbt) info).

(** Lines 70-138: the per-trip visit lists and the coordinates. *)
Definition trip_visits (self : PIDNetwork)
    : result (list (string * list visit) * gmap string (pyfloat * pyfloat)) :=
  let* route_ids := selected_route_ids (routes self) in
  let* sel := selected_trips route_ids (trips self) in
  let trip_ids := selected_trip_ids sel in
  let rows := stop_rows (stops self) in
  let* names := stop_name_by_id rows in
  let* info := stop_info_by_name rows in
  let* sorted_rows := sorted_stop_times (selected_stop_times trip_ids names (stop_times self)) in
  let* tbt := times_by_trip names sorted_rows in
  Ok (tbt, info).

Definition _build_graph (self : PIDNetwork) : result graph :=
  let* ti := trip_visits self in
  graph_of_times ti.1 ti.2.

(** ** [PIDNetwork._ensure_cached_files] *)

(** A file of the cache directory: a text, or a ZIP archive with its
    members by name. *)
Inductive file : Type :=
| TextFile (content : string)
| ZipFile (members : gmap string string).

(** What [_ensure_cached_files] works on: the files of [cache_dir] by
    name, and the lines printed to [sys.stderr].  The directory itself,
    which [os.makedirs] creates, and failures of the operating system or
    of the network are not part of the embedding: the download is taken
    to deliver the file that [zip_url] serves. *)
Record cache_state : Type := {
  files : gmap string file;
  stderr : list string;
}.

Inductive io_exn : Type :=
| FileNotFoundError (message : string)
| BadZipFile.

(** Line 25. *)
Definition required_files : list string :=
  ["stops.txt"; "stop_times.txt"; "trips.txt"; "routes.txt"].

Definition print (line : string) (s : cache_state) : cache_state :=
  {| files := files s; stderr := (stderr s ++ [line])%list |}.

(** [os.path.exists(os.path.join(cache_dir, name))] *)
Definition exists_file (fs : gmap string file) (name : string) : bool :=
  bool_decide (is_Some (fs !! name)).

(** Lines 58-61: the loop that extracts the required files; the first
    name that is no member of the archive ends it with an exception. *)
Fixpoint extract_required (available : gmap string string) (names : list string)
    (fs : gmap string file) : gmap string file * option io_exn :=
  match names with
  | [] => (fs, None)
  | name :: names' =>
      match available !! name with
      | None => (fs, Some (FileNotFoundError ("Missing required file in ZIP: " ++ name)))
      | Some content => extract_required available names' (<[name := TextFile content]> fs)
      end
  end.

(** Lines 36-63.  [served] is the file at [zip_url].  The result is the
    state the call leaves and the exception it ends with, if any. *)
Definition _ensure_cached_files (served : file) (s : cache_state)
    : cache_state * option io_exn :=
  let missing_files := filter (λ name, exists_file (files s) name = false) required_files in
  match missing_files with
  | [] => (print "[OK] Using cached PID GTFS files" s, None)
  | _ :: _ =>
      let s := print "[INFO] Downloading PID GTFS dataset..." s in
      let zip_path := "PID_GTFS.zip" in
      let tmp_path := zip_path ++ ".tmp" in
      let retrieved := <[tmp_path := served]> (files s) in
      let replaced := <[zip_path := served]> (delete tmp_path retrieved) in
      let s := print "[INFO] Extracting required GTFS files..."
                 {| files := replaced; stderr := stderr s |} in
      match files s !! zip_path with
      | Some (ZipFile members) =>
          let '(extracted, raised) := extract_required members required_files (files s) in
          match raised with
          | Some e => ({| files := extracted; stderr := stderr s |}, Some e)
          | None =>
              (print "[OK] Dataset cached" {| files := extracted; stderr := stderr s |}, None)
          end
      | _ => (s, Some BadZipFile)
      end
  end.

(** * Vocabulary of the statements *)



(** ** Sample feeds *)

Definition mk_row (fields : list (string * string)) : row := list_to_map fields.

Definition stop_row (id name lon lat : string) : row :=
  mk_row [("stop_id", id); ("stop_name", name); ("zone_id", "P");
          ("stop_lon", lon); ("stop_lat", lat)].

Definition stop_time_row (trip stop seq arr dep : string) : row :=
  mk_row [("trip_id", trip); ("stop_id", stop); ("stop_sequence", seq);
          ("arrival_time", arr); ("departure_time", dep)].

Definition trip_row (trip route direction : string) : row :=
  mk_row [("trip_id", trip); ("route_id", route); ("direction_id", direction)].

Definition route_row (route type : string) : row :=
  mk_row [("route_id", route); ("route_type", type)].

(** One tram trip from A to B whose departure text has three fields, the
    middle one not a number. *)
Definition feed_bad_minutes : PIDNetwork := {|
  stops := [stop_row "s1" "A" "14.40" "50.08"; stop_row "s2" "B" "14.41" "50.09"];
  stop_times := [stop_time_row "t1" "s1" "1" "08:00:00" "08:xx:00";
                 stop_time_row "t1" "s2" "2" "08:05:00" "08:05:00"];
  trips := [trip_row "t1" "r1" "0"];
  routes := [route_row "r1" "0"];
|}.


(** ** Order of the sort keys *)

(** [k1 <= k2] on (trip_id, stop_sequence as an integer): the trip ids
    in the order of their texts, then the integers by size. *)
Definition key_le (k1 k2 : string * Z) : Prop :=
  String.compare k1.1 k2.1 = Lt ∨ (k1.1 = k2.1 ∧ (k1.2 ≤ k2.2)%Z).

(** The same order on rows that carry their key. *)
Definition decorated_le {A : Type} : relation ((string * Z) * A) :=
  λ x y, key_le x.1 y.1.

(** Two rows are in the order of their keys. *)
Definition rows_in_order (r1 r2 : row) : Prop :=
  ∃ k1 k2, sort_key r1 = Ok k1 ∧ sort_key r2 = Ok k2 ∧ key_le k1 k2.

(** Stop times of one trip, given as (stop_sequence, stop_id). *)
Definition trip_rows (trip : string) (l : list (string * string)) : list row :=
  (λ p, stop_time_row trip p.2 p.1 "08:00:00" "08:00:00") <$> l.


(** ** First-seen trips *)





(** ** First-seen coordinates *)

(** A coordinate text that reads as a finite decimal number. *)
Definition finite_literal (text : string) : option pyfloat :=
  match float_literal text with
  | Some (FNum q) => Some (FNum q)
  | _ => None
  end.

(** The coordinates of the first row of [rows] named [name] whose
    longitude and latitude texts are both accepted by [accept]. *)
Fixpoint first_coords (accept : string → option pyfloat) (name : string) (rows : list row)
    : option (pyfloat * pyfloat) :=
  match rows with
  | [] => None
  | r :: rows' =>
      if bool_decide (r !! "stop_name" = Some name) then
        match accept (get_or_empty r "stop_lon"), accept (get_or_empty r "stop_lat") with
        | Some lon, Some lat => Some (lon, lat)
        | _, _ => first_coords accept name rows'
        end
      else first_coords accept name rows'
  end.

(** Two stops named A: the first with the longitude text inf, the
    second with decimal coordinates. *)
Definition stops_inf : list row :=
  [stop_row "s1" "A" "inf" "50.08"; stop_row "s2" "A" "14.40" "50.08"].

(** Two stops named A, the first without a longitude, and a stop B whose
    latitude is no number. *)
Definition stops_blank : list row :=
  [stop_row "s1" "A" "" "50.08"; stop_row "s2" "A" "14.40" "50.08";
   stop_row "s3" "B" "14.41" "north"].


(** ** Segments, samples and edges *)

(** The directed pair of stop names of a consecutive pair of visits. *)
Definition pair_names (p : visit * visit) : string * string :=
  (stop_name p.1, stop_name p.2).

(** All consecutive pairs of visits of all trips, in the order the
    nested loops go through them. *)
Definition all_pairs (tbt : list (string * list visit)) : list (visit * visit) :=
  concat ((λ kv, consecutive kv.2) <$> tbt).

(** The samples that survive for [pair], from all consecutive pairs [ps]
    in the order they are visited. *)
Fixpoint samples_for (pair : string * string) (ps : list (visit * visit)) : list Qc :=
  match ps with
  | [] => []
  | p :: ps' =>
      match segment_sample p.1 p.2 with
      | Ok (Some t) =>
          if decide (pair_names p = pair) then t :: samples_for pair ps'
          else samples_for pair ps'
      | _ => samples_for pair ps'
      end
  end.

(** The number of times the segment [pair] is traversed. *)
Definition traversals (pair : string * string) (ps : list (visit * visit)) : nat :=
  length (filter (λ p, pair_names p = pair) ps).

(** The parallel edges of [g] from [u] to [v]. *)
Definition edges_between (g : graph) (u v : string) : list edge :=
  filter (λ e, edge_between u v e = true) (edges g).

Definition node_names (g : graph) : list string := (nodes g).*1.

(** Two tram routes whose trips both run from A to B, in 4 and in 6
    minutes. *)
Definition feed_two_routes : PIDNetwork := {|
  stops := [stop_row "s1" "A" "14.40" "50.08"; stop_row "s2" "B" "14.41" "50.09"];
  stop_times := [stop_time_row "t1" "s1" "1" "08:00:00" "08:00:00";
                 stop_time_row "t1" "s2" "2" "08:04:00" "08:04:00";
                 stop_time_row "t2" "s1" "1" "09:00:00" "09:00:00";
                 stop_time_row "t2" "s2" "2" "09:06:00" "09:06:00"];
  trips := [trip_row "t1" "r1" "0"; trip_row "t2" "r2" "0"];
  routes := [route_row "r1" "0"; route_row "r2" "1"];
|}.

(** A to B with departure 08:00:00 and arrival 07:59:00, then B to C in
    no time. *)
Definition feed_negative : PIDNetwork := {|
  stops := [stop_row "s1" "A" "14.40" "50.08"; stop_row "s2" "B" "14.41" "50.09";
            stop_row "s3" "C" "14.42" "50.10"];
  stop_times := [stop_time_row "t1" "s1" "1" "08:00:00" "08:00:00";
                 stop_time_row "t1" "s2" "2" "07:59:00" "08:01:00";
                 stop_time_row "t1" "s3" "3" "08:01:00" "08:01:00"];
  trips := [trip_row "t1" "r1" "0"];
  routes := [route_row "r1" "0"];
|}.

(** The visit lists of a feed; empty when the feed cannot be read. *)
Definition visits_of (self : PIDNetwork) : list (string * list visit) :=
  match trip_visits self with
  | Ok ti => ti.1
  | Raise _ => []
  end.

Definition Qc_of_Z (n : Z) : Qc := Q2Qc (inject_Z n).


(** Every node is an end point of some edge. *)
Definition covered (g : graph) : Prop :=
  ∀ n, n ∈ node_names g → ∃ e, e ∈ edges g ∧ (e_from e = n ∨ e_to e = n).

(** The parallel edges between two nodes carry the keys 0, 1, 2, ... in
    the order they were added. *)
Definition keys_ordered (g : graph) : Prop :=
  ∀ u v, e_key <$> edges_between g u v = seq 0 (length (edges_between g u v)).


(** A to B in 5 minutes, and back from B to A in [back] minutes, on two
    tram routes. *)
Definition feed_return (back : string) : PIDNetwork := {|
  stops := [stop_row "s1" "A" "14.40" "50.08"; stop_row "s2" "B" "14.41" "50.09"];
  stop_times := [stop_time_row "t1" "s1" "1" "08:00:00" "08:00:00";
                 stop_time_row "t1" "s2" "2" "08:05:00" "08:05:00";
                 stop_time_row "t2" "s2" "1" "09:00:00" "09:00:00";
                 stop_time_row "t2" "s1" "2" ("09:" ++ back ++ ":00") ("09:" ++ back ++ ":00")];
  trips := [trip_row "t1" "r1" "0"; trip_row "t2" "r1" "1"];
  routes := [route_row "r1" "0"];
|}.


(** The graph of a feed; empty when the construction raises. *)
Definition built (self : PIDNetwork) : graph :=
  match _build_graph self with
  | Ok g => g
  | Raise _ => empty_graph
  end.


(** ** Well-formed graphs *)

(** Both end points of every edge are nodes. *)
Definition closed (g : graph) : Prop :=
  ∀ e, e ∈ edges g → e_from e ∈ node_names g ∧ e_to e ∈ node_names g.

(** No node carries an attribute yet. *)
Definition bare (g : graph) : Prop := ∀ na, na ∈ nodes g → na.2 = None.


(** ** Rows of one sort key *)

(** The row has the sort key [k]. *)
Definition has_key (k : string * Z) (r : row) : bool :=
  match sort_key r with
  | Ok k' => bool_decide (k' = k)
  | Raise _ => false
  end.

(** Three stop times of one trip that share the stop_sequence 5 (written
    in three ways), after one with the stop_sequence 7. *)
Definition rows_same_sequence : list row :=
  trip_rows "t1" [("7", "s7"); ("5", "a"); ("05", "b"); (" 5", "c")].


(** ** Names of stop ids, visits of trips *)

(** The stop_name of the last row of [rows] with the stop_id [sid],
    among the rows with a stop_id and a stop_name that are not empty. *)
Fixpoint last_stop_name (sid : string) (rows : list row) : option string :=
  match rows with
  | [] => None
  | r :: rows' =>
      match last_stop_name sid rows' with
      | Some n => Some n
      | None =>
          if bool_decide (r !! "stop_id" = Some sid ∧ sid ≠ ""
                          ∧ truthy (r !! "stop_name") = true)
          then r !! "stop_name" else None
      end
  end.

(** Two rows with the stop_id s1 and different names. *)
Definition stops_renamed : list row :=
  [stop_row "s1" "Old name" "14.40" "50.08"; stop_row "s2" "B" "14.41" "50.09";
   stop_row "s1" "New name" "14.42" "50.10"].

(** The trip and the visit a stop-time row stands for, when it has a
    trip_id and a stop_id with a known name. *)
Definition to_visit (names : gmap string string) (r : row) : option (string * visit) :=
  match r !! "trip_id", r !! "stop_id" with
  | Some trip_id, Some stop_id =>
      match names !! stop_id with
      | Some name =>
          Some (trip_id, {| stop_name := name;
                            arrival := default "" (r !! "arrival_time");
                            departure := default "" (r !! "departure_time") |})
      | None => None
      end
  | _, _ => None
  end.

(** The visits of the trip [t] among [rows], in the order of the rows. *)
Definition visits_of_trip (names : gmap string string) (t : string) (rows : list row)
    : list visit :=
  omap (λ r, match to_visit names r with
             | Some (t', v) => if decide (t' = t) then Some v else None
             | None => None
             end) rows.

(** The list stored under [t] in a [defaultdict(list)], empty when [t] is
    no key. *)
Fixpoint group_of {V : Type} (t : string) (d : list (string * list V)) : list V :=
  match d with
  | [] => []
  | (k, vs) :: d' => if decide (t = k) then vs else group_of t d'
  end.

(** The rows of two trips, those of t2 before and after those of t1. *)
Definition rows_two_trips : list row :=
  [stop_time_row "t2" "s1" "1" "09:00:00" "09:00:00";
   stop_time_row "t1" "s1" "1" "08:00:00" "08:00:00";
   stop_time_row "t1" "s2" "2" "08:04:00" "08:04:00";
   stop_time_row "t2" "s2" "2" "09:06:00" "09:06:00"].

Definition names_AB : gmap string string := <["s1" := "A"]> (<["s2" := "B"]> ∅).


(** ** Well-formed feeds *)



(** The feed with other stop times. *)
Definition with_stop_times (self : PIDNetwork) (sts : list row) : PIDNetwork :=
  {| stops := stops self; stop_times := sts; trips := trips self; routes := routes self |}.

(** Rows of the trips t2 and t9, which [feed_two_trips] and
    [feed_bad_minutes] do not select, with unreadable fields. *)
Definition rows_unselected : list row :=
  [stop_time_row "t9" "s1" "first" "xx:yy:zz" "08:xx:00";
   mk_row [("trip_id", "t2"); ("stop_id", "s2")]].

(** One tram trip from A to B in 5 minutes. *)
Definition feed_one_trip : PIDNetwork := {|
  stops := [stop_row "s1" "A" "14.40" "50.08"; stop_row "s2" "B" "" "50.09"];
  stop_times := [stop_time_row "t1" "s1" "1" "08:00:00" "08:00:00";
                 stop_time_row "t1" "s2" "2" "08:05:00" "08:05:00"];
  trips := [trip_row "t1" "r1" "0"];
  routes := [route_row "r1" "0"];
|}.


(** ** Cache states *)

(** A cache with [routes.txt] only. *)
Definition cache_routes_only : cache_state :=
  {| files := {[ "routes.txt" := TextFile "route_id,route_type" ]}; stderr := [] |}.

(** An archive with the four required files and a fifth one. *)
Definition archive_full : gmap string string :=
  list_to_map [("stops.txt", "S"); ("stop_times.txt", "T"); ("trips.txt", "R");
               ("routes.txt", "O"); ("agency.txt", "A")].

(** An archive without [trips.txt]. *)
Definition archive_no_trips : gmap string string :=
  list_to_map [("stops.txt", "S"); ("stop_times.txt", "T"); ("routes.txt", "O")].

(** * Properties *)

(** ** The literals on sample texts *)

Example int_literal_samples :
  int_literal <$> ["08"; " 12 "; "-7"; "+3"; "1_000"; ""; "xx"; "1__0"; "_1"; "1_"; "+"; "1 2"; "0x10"; "1.5"]
  = [Some 8; Some 12; Some (-7); Some 3; Some 1000; None; None; None; None; None; None; None; None; None]%Z.
Proof. reflexivity. Qed.

Example float_literal_samples :
  (λ t, is_finite <$> float_literal t) <$>
    ["14.40"; " -1e3 "; ".5"; "5."; "1_0.5"; "1E-2"; "inf"; "-Infinity"; "NaN";
     ""; "."; "1e"; "1e+"; "1._5"; "infinit"; "0x10"; "north"; "--5"]
  = [Some true; Some true; Some true; Some true; Some true; Some true;
     Some false; Some false; Some false;
     None; None; None; None; None; None; None; None; None].
Proof. by vm_compute. Qed.

Example float_literal_values :
  float_literal <$> ["14.40"; "-1e3"; "1E-2"]
  = [Some (FNum (Qc_of_Z 72 / Qc_of_Z 5)); Some (FNum (Qc_of_Z (-1000)));
     Some (FNum (Qc_of_Z 1 / Qc_of_Z 100))]%Qc.
Proof.
  vm_compute. repeat (f_equal; try (f_equal; apply Qc_is_canon; reflexivity)).
Qed.

Example split_samples :
  split ":" <$> ["08:05:00"; "08:05"; ""; ":"; "a::b"]
  = [["08"; "05"; "00"]; ["08"; "05"]; [""]; [""; ""]; ["a"; ""; "b"]].
Proof. reflexivity. Qed.

(** ** Exceptions and loops *)

Lemma rbind_Ok {A B : Type} (c : result A) (k : A → result B) (b : B) :
  rbind c k = Ok b → ∃ a, c = Ok a ∧ k a = Ok b.
Proof. destruct c as [a|e]; simpl; [eauto | discriminate]. Qed.

Lemma for_each_app {A S : Type} (body : S → A → result S) (xs ys : list A) (s : S) :
  for_each body (xs ++ ys)%list s = let* s' := for_each body xs s in for_each body ys s'.
Proof.
  revert s. induction xs as [|x xs IH]; intros s; simpl; [done|].
  destruct (body s x) as [s'|e]; simpl; [apply IH | done].
Qed.

(** ** Text *)








(** ** Decimal numerals *)








(** ** The time parser *)

Lemma parse_gtfs_time_fields (t p0 p1 p2 : string) :
  split ":" t = [p0; p1; p2] →
  _parse_gtfs_time t =
    let* hours := py_int p0 in
    let* minutes := py_int p1 in
    let* seconds := py_int p2 in
    Ok (Some (hours * 3600 + minutes * 60 + seconds)).
Proof.
  intros Hs. unfold _parse_gtfs_time. rewrite Hs.
  destruct t; [discriminate | done].
Qed.




(** A text of three fields of which one is no integer literal makes the
    parser raise. *)
Lemma parse_gtfs_time_raises (t p0 p1 p2 : string) :
  split ":" t = [p0; p1; p2] →
  int_literal p0 = None ∨ int_literal p1 = None ∨ int_literal p2 = None →
  _parse_gtfs_time t = Raise ValueError.
Proof.
  intros Hs H. rewrite (parse_gtfs_time_fields _ _ _ _ Hs). unfold py_int.
  destruct (int_literal p0); [|done]. destruct (int_literal p1); [|by simpl].
  destruct (int_literal p2); [|by simpl]. by destruct H as [|[|]].
Qed.

(** C1: on the departure text 08:xx:00, three fields with a non-numeric
    one, the parser raises [ValueError], and so does the construction of
    the graph for a feed in which a selected trip carries that text. *)
Theorem build_graph_non_numeric_time_raises :
  split ":" "08:xx:00" = ["08"; "xx"; "00"]
  ∧ int_literal "xx" = None
  ∧ _parse_gtfs_time "08:xx:00" = Raise ValueError
  ∧ _build_graph feed_bad_minutes = Raise ValueError.
Proof. repeat split; vm_compute; reflexivity. Qed.

(** ** Sorting the stop times *)

Lemma string_compare_lt_trans (a b c : string) :
  String.compare a b = Lt → String.compare b c = Lt → String.compare a c = Lt.
Proof.
  revert b c. induction a as [|x a IH]; intros [|y b] [|z c]; simpl; try done.
  unfold Ascii.compare.
  destruct (N.compare_spec (N_of_ascii x) (N_of_ascii y)) as [Hxy|Hxy|Hxy]; [| |done];
  destruct (N.compare_spec (N_of_ascii y) (N_of_ascii z)) as [Hyz|Hyz|Hyz]; try done; intros H1 H2.
  - rewrite Hxy, Hyz, N.compare_refl. by eapply IH.
  - rewrite Hxy. by apply N.compare_lt_iff in Hyz as ->.
  - rewrite <- Hyz. by apply N.compare_lt_iff in Hxy as ->.
  - assert (N_of_ascii x < N_of_ascii z)%N as Hxz by lia.
    by apply N.compare_lt_iff in Hxz as ->.
Qed.

Lemma key_le_trans (k1 k2 k3 : string * Z) : key_le k1 k2 → key_le k2 k3 → key_le k1 k3.
Proof.
  intros [H1|[E1 H1]] [H2|[E2 H2]]; unfold key_le.
  - left. by eapply string_compare_lt_trans.
  - left. by rewrite <- E2.
  - left. by rewrite E1.
  - right. split; [congruence | lia].
Qed.

Lemma key_lt_le (k1 k2 : string * Z) : key_lt k1 k2 = true → key_le k1 k2.
Proof.
  unfold key_lt, key_le. destruct (String.compare k1.1 k2.1) eqn:Hc; [|by left|done].
  intros H. right. apply String.compare_eq_iff in Hc. split; [done|lia].
Qed.

Lemma key_not_lt_le (k1 k2 : string * Z) : key_lt k1 k2 = false → key_le k2 k1.
Proof.
  unfold key_lt, key_le. rewrite (String.compare_antisym k1.1 k2.1).
  destruct (String.compare k2.1 k1.1) eqn:Hc; simpl; [|by left|done].
  intros H. right. apply String.compare_eq_iff in Hc. split; [done|lia].
Qed.

Section insertion.
Context {A : Type}.
Implicit Types (x : (string * Z) * A) (l : list ((string * Z) * A)).

Lemma insert_sorted_perm x l : insert_sorted x l ≡ₚ x :: l.
Proof.
  induction l as [|y l IH]; simpl; [done|].
  destruct (key_lt y.1 x.1); [|done]. rewrite IH. apply Permutation_swap.
Qed.

Lemma sort_decorated_perm l : sort_decorated l ≡ₚ l.
Proof.
  induction l as [|x l IH]; simpl; [done|]. by rewrite insert_sorted_perm, IH.
Qed.

Lemma insert_sorted_sorted x l :
  StronglySorted decorated_le l → StronglySorted decorated_le (insert_sorted x l).
Proof.
  induction 1 as [|y l Hl IH Hy]; simpl.
  - repeat constructor.
  - destruct (key_lt y.1 x.1) eqn:Hlt.
    + constructor; [done|]. rewrite insert_sorted_perm. constructor; [|done].
      by apply key_lt_le.
    + apply key_not_lt_le in Hlt. constructor; [by constructor|].
      constructor; [done|]. eapply Forall_impl; [exact Hy|].
      intros z Hz. by eapply key_le_trans.
Qed.

Lemma sort_decorated_sorted l : StronglySorted decorated_le (sort_decorated l).
Proof.
  induction l as [|x l IH]; simpl; [constructor | by apply insert_sorted_sorted].
Qed.
End insertion.

Lemma map_each_decorate (rows : list row) :
  (∀ r, r ∈ rows → ∃ k, sort_key r = Ok k) →
  ∃ dec, map_each (λ r, let* k := sort_key r in Ok (k, r)) rows = Ok dec
         ∧ dec.*2 = rows ∧ Forall (λ kr, sort_key kr.2 = Ok kr.1) dec.
Proof.
  induction rows as [|r rows IH]; intros Hk; simpl.
  - by exists [].
  - destruct (Hk r) as [k Hr]; [left|]. rewrite Hr. simpl.
    destruct IH as (dec & -> & Hdec & Hall).
    { intros r' Hr'. apply Hk. by right. }
    simpl. exists ((k, r) :: dec). repeat split; [by rewrite <- Hdec | by constructor].
Qed.

(** C4: the selected stop times come out ordered by (trip_id,
    stop_sequence read as an integer); the sequence texts 2, 10, 3 of one
    trip come out as 2, 3, 10. *)
Theorem sorted_stop_times_numeric :
  (∀ rows : list row,
     (∀ r, r ∈ rows → ∃ k, sort_key r = Ok k) →
     ∃ out, sorted_stop_times rows = Ok out
            ∧ out ≡ₚ rows
            ∧ StronglySorted rows_in_order out)
  ∧ (λ r : row, r !! "stop_sequence") <$>
      default [] (match sorted_stop_times (trip_rows "t1" [("2", "s2"); ("10", "s10"); ("3", "s3")]) with
                  | Ok out => Some out
                  | Raise _ => None
                  end)
    = [Some "2"; Some "3"; Some "10"].
Proof.
  split; [|by vm_compute].
  intros rows Hk. destruct (map_each_decorate rows Hk) as (dec & Hdec & Hrows & Hall).
  unfold sorted_stop_times. rewrite Hdec. simpl. eexists. split; [done|]. split.
  - rewrite <- Hrows. by rewrite sort_decorated_perm.
  - apply StronglySorted_fmap with (R1 := λ x y : (string * Z) * row,
      key_le x.1 y.1 ∧ sort_key x.2 = Ok x.1 ∧ sort_key y.2 = Ok y.1).
    + intros x y (Hle & Hx & Hy). by exists x.1, y.1.
    + assert (Forall (λ kr : (string * Z) * row, sort_key kr.2 = Ok kr.1) (sort_decorated dec)) as Hall'
        by by rewrite sort_decorated_perm.
      pose proof (sort_decorated_sorted dec) as Hs.
      induction Hs as [|x l Hl IH Hx]; [constructor|].
      apply Forall_cons in Hall' as [Hkx Hall']. constructor; [by apply IH|].
      rewrite Forall_forall in Hx, Hall' |- *. intros y Hy. naive_solver.
Qed.

Lemma sorted_stop_times_numeric_witness :
  ∃ out, sorted_stop_times (trip_rows "t1" [("2", "s2"); ("10", "s10"); ("3", "s3")]) = Ok out
         ∧ out ≡ₚ trip_rows "t1" [("2", "s2"); ("10", "s10"); ("3", "s3")]
         ∧ StronglySorted rows_in_order out.
Proof.
  apply (proj1 sorted_stop_times_numeric).
  intros r Hr. unfold trip_rows in Hr. simpl in Hr.
  repeat (apply elem_of_cons in Hr as [->|Hr]; [eexists; vm_compute; reflexivity|]).
  by apply elem_of_nil in Hr.
Defined.

(** ** Selecting routes and trips *)

Lemma get_in_true (r : row) (k : string) (ids : gset string) :
  get_in r k ids = true ↔ ∃ v, r !! k = Some v ∧ v ∈ ids.
Proof.
  unfold get_in. destruct (r !! k) as [v|].
  - rewrite bool_decide_eq_true. split; [by exists v|]. by intros (? & [= <-] & ?).
  - split; [done|]. by intros (? & ? & ?).
Qed.





(** ** Stop names and coordinates *)

Lemma stop_rows_named (ss : list row) (r : row) :
  r ∈ stop_rows ss → ∃ c n, r !! "stop_name" = Some (String c n).
Proof.
  unfold stop_rows. rewrite list_elem_of_filter. intros [H _].
  apply andb_true_iff in H as [_ H]. unfold truthy in H.
  destruct (r !! "stop_name") as [[|c n]|]; try done. by exists c, n.
Qed.

Lemma stop_info_loop (rows : list row) (info0 : gmap string (pyfloat * pyfloat)) :
  (∀ r, r ∈ rows → is_Some (r !! "stop_name")) →
  ∃ info, for_each stop_info_step rows info0 = Ok info
    ∧ ∀ name, info !! name = match info0 !! name with
                             | Some xy => Some xy
                             | None => first_coords float_literal name rows
                             end.
Proof.
  revert info0. induction rows as [|r rows IH]; intros info0 Hn; cbn [for_each first_coords].
  - exists info0. split; [done|]. intros name. by destruct (info0 !! name).
  - destruct (Hn r) as [n0 Hr]; [left|].
    assert (∀ r', r' ∈ rows → is_Some (r' !! "stop_name")) as Hn' by (intros; apply Hn; by right).
    unfold stop_info_step at 1, getitem. rewrite Hr. cbn [rbind].
    assert (∀ info1 : gmap string (pyfloat * pyfloat),
      (∀ name, info1 !! name = match info0 !! name with
                               | Some xy => Some xy
                               | None => if bool_decide (Some n0 = Some name) then
                                   match float_literal (get_or_empty r "stop_lon"),
                                         float_literal (get_or_empty r "stop_lat") with
                                   | Some lon, Some lat => Some (lon, lat)
                                   | _, _ => None
                                   end else None
                               end) →
      ∃ info, for_each stop_info_step rows info1 = Ok info
        ∧ ∀ name, info !! name = match info0 !! name with
            | Some xy => Some xy
            | None => if bool_decide (Some n0 = Some name) then
                match float_literal (get_or_empty r "stop_lon"),
                      float_literal (get_or_empty r "stop_lat") with
                | Some lon, Some lat => Some (lon, lat)
                | _, _ => first_coords float_literal name rows
                end else first_coords float_literal name rows
            end) as Hstep.
    { intros info1 H1. destruct (IH info1 Hn') as (info & -> & Hinfo).
      exists info. split; [done|]. intros name. rewrite Hinfo, H1.
      destruct (info0 !! name); [done|]. case_bool_decide; [|done].
      by destruct (float_literal (get_or_empty r "stop_lon")),
                  (float_literal (get_or_empty r "stop_lat")). }
    assert (∀ name, info0 !! name = None → Some n0 = Some name → n0 = name) as Hn0
      by (intros; congruence).
    destruct (info0 !! n0) as [xy0|] eqn:H0.
    { cbn [rbind]; apply Hstep. intros name. destruct (info0 !! name) eqn:Hname; [done|].
      rewrite bool_decide_eq_false_2; [done|]. intros ?. assert (n0 = name) by auto. congruence. }
    destruct (String.eqb_spec (get_or_empty r "stop_lon") "") as [Elon|Nlon]; cbn [orb].
    { cbn [rbind]; apply Hstep. intros name. destruct (info0 !! name) eqn:Hname; [done|].
      rewrite Elon. by case_bool_decide. }
    destruct (String.eqb_spec (get_or_empty r "stop_lat") "") as [Elat|Nlat].
    { cbn [rbind]; apply Hstep. intros name. destruct (info0 !! name) eqn:Hname; [done|].
      rewrite Elat. case_bool_decide; [|done]. by destruct (float_literal _). }
    destruct (float_literal (get_or_empty r "stop_lon")) as [lon|].
    2:{ cbn [rbind]; apply Hstep. intros name. destruct (info0 !! name); [done|]. by case_bool_decide. }
    destruct (float_literal (get_or_empty r "stop_lat")) as [lat|].
    2:{ cbn [rbind]; apply Hstep. intros name. destruct (info0 !! name); [done|]. by case_bool_decide. }
    cbn [rbind]; apply Hstep. intros name. destruct (decide (n0 = name)) as [<-|Hne].
    + rewrite lookup_insert_eq, H0. by rewrite bool_decide_eq_true_2.
    + rewrite lookup_insert_ne by done. destruct (info0 !! name) eqn:Hname; [done|].
      rewrite bool_decide_eq_false_2; [done|]. intros ?. by apply Hne, Hn0.
Qed.

Lemma stop_name_loop (rows : list row) (acc : gmap string string) :
  ∃ names, for_each stop_name_step rows acc = Ok names
    ∧ ∀ sid, is_Some (names !! sid) ↔
        is_Some (acc !! sid)
        ∨ ∃ r, r ∈ rows ∧ r !! "stop_id" = Some sid ∧ sid ≠ ""
               ∧ truthy (r !! "stop_name") = true.
Proof.
  revert acc. induction rows as [|r rows IH]; intros acc; cbn [for_each].
  - exists acc. split; [done|]. intros sid. split; [by left|].
    intros [?|(r & Hr & _)]; [done|]. by apply elem_of_nil in Hr.
  - unfold stop_name_step at 1, getitem.
    destruct (r !! "stop_id") as [[|c sid0]|] eqn:Hid; cbn [truthy andb rbind].
    1,3: destruct (IH acc) as (names & -> & Hnames); exists names; (split; [done|]);
      intros sid; rewrite Hnames; split;
      [ intros [?|(r' & Hr' & H')]; [by left|]; right; exists r'; split; [by right|done]
      | intros [?|(r' & Hr' & Hid' & Hne & Ht)]; [by left|];
        apply elem_of_cons in Hr' as [->|Hr']; [congruence|]; right; by exists r' ].
    destruct (r !! "stop_name") as [[|c' n]|] eqn:Hname; cbn [truthy rbind].
    1,3: destruct (IH acc) as (names & -> & Hnames); exists names; (split; [done|]);
      intros sid; rewrite Hnames; split;
      [ intros [?|(r' & Hr' & H')]; [by left|]; right; exists r'; split; [by right|done]
      | intros [?|(r' & Hr' & Hid' & Hne & Ht)]; [by left|];
        apply elem_of_cons in Hr' as [->|Hr']; [by rewrite Hname in Ht|]; right; by exists r' ].
    destruct (IH (<[String c sid0 := String c' n]> acc)) as (names & -> & Hnames).
    exists names. split; [done|]. intros sid. rewrite Hnames, lookup_insert_is_Some. split.
    + intros [[<-|[_ ?]]|(r' & Hr' & H')]; [|by left|].
      * right. exists r. rewrite Hname. repeat split; [left|done..].
      * right. exists r'. split; [by right|done].
    + intros [Hacc|(r' & Hr' & Hid' & Hne & Ht)].
      * left. destruct (decide (String c sid0 = sid)); [by left|by right].
      * apply elem_of_cons in Hr' as [->|Hr'].
        -- left. left. congruence.
        -- right. by exists r'.
Qed.

(** C7, as the code has it: the name→coordinate map gives each stop name
    the coordinates of the first filtered stop with that name whose
    longitude and latitude texts are both accepted by [float()]; a stop
    with a blank or unreadable coordinate gives nothing to that map, yet
    its stop_id is in the stop_id→name map. *)
Theorem stop_info_first_parsed (ss : list row) :
  ∃ info names,
    stop_info_by_name (stop_rows ss) = Ok info
    ∧ stop_name_by_id (stop_rows ss) = Ok names
    ∧ (∀ name, info !! name = first_coords float_literal name (stop_rows ss))
    ∧ float_literal "" = None
    ∧ (∀ r sid, r ∈ stop_rows ss → r !! "stop_id" = Some sid → sid ≠ "" →
         is_Some (names !! sid)).
Proof.
  destruct (stop_info_loop (stop_rows ss) ∅) as (info & Hinfo & Hfirst).
  { intros r Hr. apply stop_rows_named in Hr as (c & n & ->). by eexists. }
  destruct (stop_name_loop (stop_rows ss) ∅) as (names & Hnames & Hdom).
  exists info, names. split; [done|]. split; [done|]. split; [|split; [done|]].
  - intros name. by rewrite Hfirst, lookup_empty.
  - intros r sid Hr Hid Hne. apply Hdom. right. exists r. repeat split; try done.
    apply stop_rows_named in Hr as (c & n & ->). done.
Qed.

Lemma stop_info_first_parsed_witness :
  ∃ info names,
    stop_info_by_name (stop_rows stops_blank) = Ok info
    ∧ stop_name_by_id (stop_rows stops_blank) = Ok names
    ∧ info !! "A" = match float_literal "14.40", float_literal "50.08" with
                    | Some lon, Some lat => Some (lon, lat)
                    | _, _ => None
                    end
    ∧ info !! "B" = None
    ∧ is_Some (names !! "s1") ∧ is_Some (names !! "s3").
Proof.
  destruct (stop_info_first_parsed stops_blank) as (info & names & Hinfo & Hnames & Hfirst & _ & Hid).
  exists info, names. split; [done|]. split; [done|]. rewrite !Hfirst.
  split; [vm_compute; reflexivity|]. split; [vm_compute; reflexivity|].
  split.
  - apply (Hid (stop_row "s1" "A" "" "50.08") "s1"); [|done..].
    vm_compute. apply elem_of_cons. by left.
  - apply (Hid (stop_row "s3" "B" "14.41" "north") "s3"); [|done..].
    vm_compute. do 2 (apply elem_of_cons; right). apply elem_of_cons. by left.
Defined.

(** C7, as stated, fails: the longitude text inf is accepted by
    [float()] but is no finite decimal number, and the first stop named A
    gives the coordinates although a later one has finite ones. *)
Lemma stop_info_not_first_finite :
  ∃ info, stop_info_by_name (stop_rows stops_inf) = Ok info
    ∧ info !! "A" ≠ first_coords finite_literal "A" (stop_rows stops_inf)
    ∧ (fst <$> info !! "A") = Some (FInf false).
Proof.
  eexists. split; [by vm_compute|]. split; [|by vm_compute].
  vm_compute. intros H. discriminate H.
Qed.

(** ** Travel times *)




(** ** Aggregating the samples *)

Lemma segment_loop (ps : list (visit * visit)) (st0 st : gmap (string * string) (list Qc)) :
  for_each segment_step ps st0 = Ok st →
  (∀ pair, default [] (st !! pair) = (default [] (st0 !! pair) ++ samples_for pair ps)%list)
  ∧ ((∀ k, st0 !! k ≠ Some []) → ∀ k, st !! k ≠ Some []).
Proof.
  revert st0. induction ps as [|p ps IH]; intros st0; cbn [for_each samples_for].
  - intros [= <-]. split; [|done]. intros pair. by rewrite app_nil_r.
  - unfold segment_step at 1. destruct (segment_sample p.1 p.2) as [[t|]|e]; cbn [rbind]; [| |done].
    + intros H. apply IH in H as [Hs Hne]. split.
      * intros pair. rewrite Hs. unfold append_sample.
        change (stop_name p.1, stop_name p.2) with (pair_names p).
        destruct (decide (pair_names p = pair)) as [<-|Hp].
        -- rewrite lookup_insert_eq. simpl. by rewrite <- app_assoc.
        -- by rewrite lookup_insert_ne.
      * intros H0. apply Hne. intros k. unfold append_sample.
        destruct (decide ((stop_name p.1, stop_name p.2) = k)) as [<-|Hk].
        -- rewrite lookup_insert_eq. intros [= H]. by apply app_eq_nil in H as [_ ?].
        -- rewrite lookup_insert_ne by done. apply H0.
    + apply IH.
Qed.

(** The nested loops go through [all_pairs]. *)
Lemma segment_times_flat (tbt : list (string * list visit)) :
  segment_times tbt = for_each segment_step (all_pairs tbt) ∅.
Proof.
  unfold segment_times, all_pairs. generalize (∅ : gmap (string * string) (list Qc)).
  induction tbt as [|kv tbt IH]; intros st; cbn [for_each fmap list_fmap concat]; [done|].
  rewrite for_each_app. destruct (for_each segment_step (consecutive kv.2) st); cbn [rbind];
    [apply IH | done].
Qed.

(** The average of a pair is the mean of its surviving samples, and a
    pair without one has no average. *)
Lemma avg_segment_time_lookup (tbt : list (string * list visit))
    (st : gmap (string * string) (list Qc)) (pair : string * string) :
  segment_times tbt = Ok st →
  avg_segment_time st !! pair =
    let values := samples_for pair (all_pairs tbt) in
    match values with
    | [] => None
    | _ :: _ => Some (mean values)
    end.
Proof.
  rewrite segment_times_flat. intros H. apply segment_loop in H as [Hs Hne].
  specialize (Hs pair). rewrite lookup_empty in Hs. simpl in Hs.
  specialize (Hne (λ k, ltac:(by rewrite lookup_empty)) pair).
  unfold avg_segment_time. rewrite lookup_omap.
  destruct (st !! pair) as [[|v vs]|]; simpl in *; [done| |]; by rewrite <- Hs.
Qed.


(** ** Adding the edges *)

Lemma edges_add_node (g : graph) (n : string) : edges (add_node g n) = edges g.
Proof. unfold add_node. by destruct (has_node g n). Qed.

Lemma edges_add_edge (g : graph) (u v : string) (w : Qc) :
  edges (add_edge g u v w) =
    (edges g ++ [{| e_from := u; e_to := v;
                    e_key := length (edges_between g u v);
                    avg_time_min := w |}])%list.
Proof. unfold add_edge, edges_between. cbn [edges]. by rewrite !edges_add_node. Qed.

Lemma node_names_add_node (g : graph) (n m : string) :
  m ∈ node_names (add_node g n) ↔ m ∈ node_names g ∨ m = n.
Proof.
  unfold add_node, has_node, node_names. case_bool_decide as Hn; cbn [nodes].
  - split; [by left|]. by intros [?| ->].
  - rewrite fmap_app, elem_of_app. simpl. by rewrite list_elem_of_singleton.
Qed.

Lemma node_names_add_edge (g : graph) (u v : string) (w : Qc) (m : string) :
  m ∈ node_names (add_edge g u v w) ↔ m ∈ node_names g ∨ m = u ∨ m = v.
Proof.
  unfold add_edge, node_names. cbn [nodes].
  change ((nodes (add_node (add_node g u) v)).*1) with (node_names (add_node (add_node g u) v)).
  rewrite !node_names_add_node. unfold node_names. tauto.
Qed.

Lemma node_names_set_node_attributes (g : graph) (values : gmap string (pyfloat * pyfloat)) :
  node_names (set_node_attributes g values) = node_names g.
Proof.
  unfold node_names, set_node_attributes. cbn [nodes]. rewrite <- list_fmap_compose.
  apply list_fmap_ext. intros _ [n a] _. simpl. by destruct (values !! n).
Qed.

(** Every edge the loop adds comes from a pair of names that has an
    average, and carries that average. *)
Lemma edges_fold_origin (avg : gmap (string * string) Qc) (ps : list (string * string))
    (g0 : graph) (e : edge) :
  e ∈ edges (fold_left (edge_step avg) ps g0) →
  e ∈ edges g0
  ∨ ((e_from e, e_to e) ∈ ps ∧ avg !! (e_from e, e_to e) = Some (avg_time_min e)).
Proof.
  revert g0. induction ps as [|p ps IH]; intros g0; cbn [fold_left]; [by left|].
  intros H. apply IH in H as [H|[Hp' H']].
  - unfold edge_step in H. cbn zeta in H.
    destruct (avg !! (p.1, p.2)) as [w|] eqn:Havg; [|by left].
    rewrite edges_add_edge, elem_of_app, list_elem_of_singleton in H.
    destruct H as [H| ->]; [by left|]. right. cbn [e_from e_to avg_time_min].
    split; [|done]. destruct p. left.
  - right. split; [by right|done].
Qed.

Lemma edges_between_add_edge (g : graph) (u v : string) (w : Qc) (a b : string) :
  edges_between (add_edge g u v w) a b =
    (edges_between g a b ++
     if decide ((u, v) = (a, b))
     then [{| e_from := u; e_to := v; e_key := length (edges_between g u v);
              avg_time_min := w |}]
     else [])%list.
Proof.
  unfold edges_between at 1. rewrite edges_add_edge, filter_app. f_equal.
  unfold edge_between. case_decide as Huv.
  - rewrite filter_cons_True; [done|]. cbn [e_from e_to]. injection Huv as -> ->.
    by rewrite !bool_decide_eq_true_2.
  - rewrite filter_cons_False; [done|]. cbn [e_from e_to].
    rewrite andb_true_iff, !bool_decide_eq_true. intros [-> ->]. done.
Qed.

Lemma edges_between_fold (avg : gmap (string * string) Qc) (ps : list (string * string))
    (g0 : graph) (a b : string) :
  length (edges_between (fold_left (edge_step avg) ps g0) a b) =
    (length (edges_between g0 a b) +
     match avg !! (a, b) with
     | Some _ => length (filter (λ p, p = (a, b)) ps)
     | None => 0
     end)%nat.
Proof.
  revert g0. induction ps as [|p ps IH]; intros g0; cbn [fold_left].
  - simpl. destruct (avg !! (a, b)); lia.
  - destruct p as [u v]. rewrite IH. unfold edge_step. cbn [fst snd].
    destruct (decide ((u, v) = (a, b))) as [Hp|Hp].
    + injection Hp as -> ->. rewrite filter_cons_True by done.
      destruct (avg !! (a, b)) as [w|]; [|done].
      rewrite edges_between_add_edge, decide_True, length_app by done.
      simpl. lia.
    + rewrite filter_cons_False by done.
      destruct (avg !! (u, v)) as [w|]; [|done].
      by rewrite edges_between_add_edge, decide_False, app_nil_r.
Qed.

Lemma keys_ordered_add_edge (g : graph) (u v : string) (w : Qc) :
  keys_ordered g → keys_ordered (add_edge g u v w).
Proof.
  intros Hg a b. rewrite edges_between_add_edge. case_decide as Huv.
  - injection Huv as <- <-. rewrite fmap_app, length_app, Hg. simpl.
    by rewrite Nat.add_1_r, seq_S.
  - by rewrite app_nil_r.
Qed.

Lemma keys_ordered_fold (avg : gmap (string * string) Qc) (ps : list (string * string))
    (g0 : graph) :
  keys_ordered g0 → keys_ordered (fold_left (edge_step avg) ps g0).
Proof.
  revert g0. induction ps as [|p ps IH]; intros g0 Hg; cbn [fold_left]; [done|].
  apply IH. unfold edge_step. cbn zeta.
  destruct (avg !! _); [by apply keys_ordered_add_edge | done].
Qed.

Lemma covered_add_edge (g : graph) (u v : string) (w : Qc) :
  covered g → covered (add_edge g u v w).
Proof.
  intros Hg n Hn. apply node_names_add_edge in Hn as [Hn|Hn].
  - destruct (Hg n Hn) as (e & He & Hend). exists e. split; [|done].
    rewrite edges_add_edge, elem_of_app. by left.
  - eexists. split.
    + rewrite edges_add_edge, elem_of_app. right. apply list_elem_of_singleton. reflexivity.
    + cbn [e_from e_to]. destruct Hn as [->| ->]; auto.
Qed.

Lemma covered_fold (avg : gmap (string * string) Qc) (ps : list (string * string)) (g0 : graph) :
  covered g0 → covered (fold_left (edge_step avg) ps g0).
Proof.
  revert g0. induction ps as [|p ps IH]; intros g0 Hg; cbn [fold_left]; [done|].
  apply IH. unfold edge_step. cbn zeta.
  destruct (avg !! _); [by apply covered_add_edge | done].
Qed.

Lemma covered_empty : covered empty_graph.
Proof. intros n Hn. by apply elem_of_nil in Hn. Qed.

Lemma keys_ordered_empty : keys_ordered empty_graph.
Proof. by intros u v. Qed.

Lemma consecutive_fmap {A B : Type} (f : A → B) (l : list A) :
  consecutive (f <$> l) = (λ p, (f p.1, f p.2)) <$> consecutive l.
Proof.
  unfold consecutive. destruct l as [|x l]; [done|]. cbn [fmap list_fmap tail].
  revert x. induction l as [|y l IH]; intros x; [done|]. simpl. f_equal. apply IH.
Qed.

(** The nested loops that add the edges go through the names of
    [all_pairs]. *)
Lemma add_edges_flat (avg : gmap (string * string) Qc) (tbt : list (string * list visit)) :
  add_edges avg tbt = fold_left (edge_step avg) (pair_names <$> all_pairs tbt) empty_graph.
Proof.
  unfold add_edges, all_pairs. generalize empty_graph.
  induction tbt as [|kv tbt IH]; intros g; cbn [fold_left fmap list_fmap concat]; [done|].
  rewrite fmap_app, fold_left_app, IH. by rewrite consecutive_fmap.
Qed.

Lemma traversals_names (pair : string * string) (ps : list (visit * visit)) :
  length (filter (λ p, p = pair) (pair_names <$> ps)) = traversals pair ps.
Proof.
  unfold traversals. induction ps as [|p ps IH]; [done|]. cbn [fmap list_fmap].
  destruct (decide (pair_names p = pair)) as [Hp|Hp].
  - rewrite !filter_cons_True by done. simpl. by rewrite IH.
  - by rewrite !filter_cons_False.
Qed.

(** The two halves of [_build_graph]. *)
Lemma build_graph_Ok (self : PIDNetwork) (g : graph) :
  _build_graph self = Ok g →
  ∃ tbt info st,
    trip_visits self = Ok (tbt, info)
    ∧ segment_times tbt = Ok st
    ∧ g = set_node_attributes (add_edges (avg_segment_time st) tbt) info.
Proof.
  unfold _build_graph. intros H. apply rbind_Ok in H as ([tbt info] & Hv & H).
  unfold graph_of_times in H. apply rbind_Ok in H as (st & Hst & [= <-]).
  by exists tbt, info, st.
Qed.

Lemma build_graph_edges (self : PIDNetwork) (g : graph) :
  _build_graph self = Ok g →
  ∃ st, segment_times (visits_of self) = Ok st
    ∧ edges g = edges (add_edges (avg_segment_time st) (visits_of self))
    ∧ node_names g = node_names (add_edges (avg_segment_time st) (visits_of self)).
Proof.
  intros H. apply build_graph_Ok in H as (tbt & info & st & Hv & Hst & ->).
  unfold visits_of. rewrite Hv. cbn [fst]. exists st.
  by rewrite node_names_set_node_attributes.
Qed.


(** ** The graph *)

(** C2, as stated, fails: the trips of two routes both run from A to B,
    and the graph has two parallel edges from A to B, with keys 0 and 1. *)
Lemma build_graph_parallel_edges :
  ∃ g, _build_graph feed_two_routes = Ok g
       ∧ length (edges_between g "A" "B") = 2%nat
       ∧ e_key <$> edges_between g "A" "B" = [0; 1]%nat.
Proof. eexists. split; [by vm_compute|]. split; by vm_compute. Qed.

(** The number of parallel edges of a directed pair. *)
Lemma edges_between_count (self : PIDNetwork) (g : graph) (a b : string) :
  _build_graph self = Ok g →
  length (edges_between g a b) =
    match samples_for (a, b) (all_pairs (visits_of self)) with
    | [] => 0%nat
    | _ :: _ => traversals (a, b) (all_pairs (visits_of self))
    end.
Proof.
  intros H. apply build_graph_edges in H as (st & Hst & He & _).
  unfold edges_between. rewrite He.
  fold (edges_between (add_edges (avg_segment_time st) (visits_of self)) a b).
  rewrite add_edges_flat, edges_between_fold, traversals_names.
  rewrite (avg_segment_time_lookup _ _ _ Hst). cbn zeta.
  by destruct (samples_for _ _).
Qed.

(** C2, as the code has it: a directed pair of stop names with a
    surviving sample has one parallel edge for each time the selected
    trips traverse it, with the keys 0, 1, 2, ..., and these edges all
    carry the same averaged time; a pair without a surviving sample has
    no edge. *)
Theorem edges_per_traversal (self : PIDNetwork) (g : graph) (a b : string) :
  _build_graph self = Ok g →
  length (edges_between g a b) =
    match samples_for (a, b) (all_pairs (visits_of self)) with
    | [] => 0%nat
    | _ :: _ => traversals (a, b) (all_pairs (visits_of self))
    end
  ∧ e_key <$> edges_between g a b = seq 0 (length (edges_between g a b))
  ∧ ∀ e1 e2, e1 ∈ edges_between g a b → e2 ∈ edges_between g a b →
      avg_time_min e1 = avg_time_min e2.
Proof.
  intros H. split; [by apply edges_between_count|].
  apply build_graph_edges in H as (st & Hst & He & _).
  unfold edges_between. rewrite He.
  fold (edges_between (add_edges (avg_segment_time st) (visits_of self)) a b).
  rewrite add_edges_flat. split.
  - apply keys_ordered_fold, keys_ordered_empty.
  - assert (∀ e, e ∈ edges_between (fold_left (edge_step (avg_segment_time st))
                        (pair_names <$> all_pairs (visits_of self)) empty_graph) a b →
                 avg_segment_time st !! (a, b) = Some (avg_time_min e)) as Hw.
    { intros e. unfold edges_between, edge_between. rewrite list_elem_of_filter.
      rewrite andb_true_iff, !bool_decide_eq_true. intros [[<- <-] Hin].
      by apply edges_fold_origin in Hin as [Hin|[_ Hin]]; [apply elem_of_nil in Hin|]. }
    intros e1 e2 H1 H2. apply Hw in H1, H2. congruence.
Qed.

Lemma edges_per_traversal_witness :
  _build_graph feed_two_routes = Ok (built feed_two_routes)
  ∧ length (edges_between (built feed_two_routes) "A" "B") =
      match samples_for ("A", "B") (all_pairs (visits_of feed_two_routes)) with
      | [] => 0%nat
      | _ :: _ => traversals ("A", "B") (all_pairs (visits_of feed_two_routes))
      end.
Proof.
  split; [vm_compute; reflexivity|].
  apply (edges_per_traversal feed_two_routes (built feed_two_routes) "A" "B").
  vm_compute; reflexivity.
Defined.





(** C9: the average of the pair (A, B) is decided by the samples of the
    key (A, B) alone: two feeds with the same samples for (A, B) have the
    same average for it, and their edges from A to B carry the same time,
    whatever the samples of (B, A) or of any other pair. *)
Theorem average_of_own_key (self1 self2 : PIDNetwork) (g1 g2 : graph) (a b : string) :
  _build_graph self1 = Ok g1 →
  _build_graph self2 = Ok g2 →
  samples_for (a, b) (all_pairs (visits_of self1)) =
    samples_for (a, b) (all_pairs (visits_of self2)) →
  (∀ st1 st2, segment_times (visits_of self1) = Ok st1 →
              segment_times (visits_of self2) = Ok st2 →
              avg_segment_time st1 !! (a, b) = avg_segment_time st2 !! (a, b))
  ∧ (∀ e1 e2, e1 ∈ edges_between g1 a b → e2 ∈ edges_between g2 a b →
              avg_time_min e1 = avg_time_min e2).
Proof.
  intros H1 H2 Hsame.
  assert (∀ st1 st2, segment_times (visits_of self1) = Ok st1 →
                     segment_times (visits_of self2) = Ok st2 →
                     avg_segment_time st1 !! (a, b) = avg_segment_time st2 !! (a, b)) as Havg.
  { intros st1 st2 Hst1 Hst2.
    by rewrite (avg_segment_time_lookup _ _ _ Hst1), (avg_segment_time_lookup _ _ _ Hst2), Hsame. }
  split; [done|].
  apply build_graph_edges in H1 as (st1 & Hst1 & He1 & _).
  apply build_graph_edges in H2 as (st2 & Hst2 & He2 & _).
  assert (∀ (self : PIDNetwork) (g : graph) st (e : edge),
            edges g = edges (add_edges (avg_segment_time st) (visits_of self)) →
            e ∈ edges_between g a b →
            avg_segment_time st !! (a, b) = Some (avg_time_min e)) as Hw.
  { intros self g st e He. unfold edges_between, edge_between. rewrite list_elem_of_filter.
    rewrite andb_true_iff, !bool_decide_eq_true, He, add_edges_flat. intros [[<- <-] Hin].
    by apply edges_fold_origin in Hin as [Hin|[_ Hin]]; [apply elem_of_nil in Hin|]. }
  intros e1 e2 Hin1 Hin2.
  apply (Hw self1 g1 st1 e1 He1) in Hin1. apply (Hw self2 g2 st2 e2 He2) in Hin2.
  rewrite (Havg st1 st2 Hst1 Hst2) in Hin1. congruence.
Qed.

Lemma average_of_own_key_witness :
  samples_for ("B", "A") (all_pairs (visits_of (feed_return "03"))) ≠
    samples_for ("B", "A") (all_pairs (visits_of (feed_return "07")))
  ∧ Forall (λ e1, Forall (λ e2, avg_time_min e1 = avg_time_min e2)
                    (edges_between (built (feed_return "07")) "A" "B"))
      (edges_between (built (feed_return "03")) "A" "B").
Proof.
  split; [by vm_compute|].
  apply Forall_forall. intros e1 He1. apply Forall_forall. intros e2 He2.
  revert e1 e2 He1 He2.
  apply (average_of_own_key (feed_return "03") (feed_return "07")
           (built (feed_return "03")) (built (feed_return "07")) "A" "B");
    vm_compute; reflexivity.
Defined.

(** C10: every node of the graph is an end point of one of its edges,
    and so the name of a stop of a traversed segment that has a surviving
    sample; setting the coordinate attributes adds no node. *)
Theorem nodes_are_endpoints :
  (∀ (self : PIDNetwork) (g : graph) (n : string),
     _build_graph self = Ok g → n ∈ node_names g →
     (∃ e, e ∈ edges g ∧ (e_from e = n ∨ e_to e = n))
     ∧ (∃ p, p ∈ all_pairs (visits_of self)
             ∧ (stop_name p.1 = n ∨ stop_name p.2 = n)
             ∧ samples_for (pair_names p) (all_pairs (visits_of self)) ≠ []))
  ∧ (∀ (g : graph) (values : gmap string (pyfloat * pyfloat)),
       node_names (set_node_attributes g values) = node_names g
       ∧ edges (set_node_attributes g values) = edges g).
Proof.
  split; [|by split; [apply node_names_set_node_attributes|]].
  intros self g n H Hn.
  apply build_graph_edges in H as (st & Hst & He & Hnodes).
  rewrite Hnodes, add_edges_flat in Hn. rewrite He, add_edges_flat.
  destruct (covered_fold (avg_segment_time st) (pair_names <$> all_pairs (visits_of self))
              empty_graph covered_empty n Hn) as (e & Hin & Hend).
  split; [by exists e|].
  apply edges_fold_origin in Hin as [Hin|[Hp Havg]]; [by apply elem_of_nil in Hin|].
  apply list_elem_of_fmap in Hp as (p & Hnames & Hp).
  exists p. split; [done|]. split.
  - unfold pair_names in Hnames. injection Hnames as Hf Ht. rewrite <- Hf, <- Ht. done.
  - rewrite Hnames, (avg_segment_time_lookup _ _ _ Hst) in Havg. cbn zeta in Havg.
    by destruct (samples_for _ _).
Qed.

Lemma nodes_are_endpoints_witness :
  _build_graph feed_negative = Ok (built feed_negative)
  ∧ node_names (built feed_negative) = ["B"; "C"]
  ∧ ∃ e, e ∈ edges (built feed_negative) ∧ (e_from e = "C" ∨ e_to e = "C").
Proof.
  split; [vm_compute; reflexivity|]. split; [vm_compute; reflexivity|].
  apply (proj1 nodes_are_endpoints feed_negative (built feed_negative) "C").
  - vm_compute; reflexivity.
  - vm_compute. apply elem_of_cons. right. apply elem_of_cons. by left.
Defined.

(** * Further properties of the construction *)

(** ** The stages of [_build_graph] *)

Lemma trip_visits_stages (self : PIDNetwork) (tbt : list (string * list visit))
    (info : gmap string (pyfloat * pyfloat)) :
  trip_visits self = Ok (tbt, info) →
  ∃ ids sel names sorted_rows,
    selected_route_ids (routes self) = Ok ids
    ∧ selected_trips ids (trips self) = Ok sel
    ∧ stop_name_by_id (stop_rows (stops self)) = Ok names
    ∧ stop_info_by_name (stop_rows (stops self)) = Ok info
    ∧ sorted_stop_times
        (selected_stop_times (selected_trip_ids sel) names (stop_times self)) = Ok sorted_rows
    ∧ times_by_trip names sorted_rows = Ok tbt.
Proof.
  unfold trip_visits. intros H.
  apply rbind_Ok in H as (ids & Hids & H). apply rbind_Ok in H as (sel & Hsel & H).
  cbn zeta in H.
  apply rbind_Ok in H as (names & Hnames & H). apply rbind_Ok in H as (info' & Hinfo & H).
  apply rbind_Ok in H as (sorted_rows & Hsorted & H).
  apply rbind_Ok in H as (tbt' & Htbt & [= <- <-]).
  by exists ids, sel, names, sorted_rows.
Qed.

(** ** Weights *)

Lemma segment_sample_nonneg (cur next : visit) (t : Qc) :
  segment_sample cur next = Ok (Some t) → (0 <= t)%Qc.
Proof.
  unfold segment_sample.
  destruct (_parse_gtfs_time (departure cur)) as [[dep|]|]; cbn [rbind]; [| |done];
    (destruct (_parse_gtfs_time (arrival next)) as [[arr|]|]; cbn [rbind]; try done).
  unfold Qc_ltb. destruct (travel_time_min dep arr ?= 0)%Qc eqn:Hc; try done;
    intros [= <-]; apply Qcnot_lt_le; rewrite Qclt_alt, Hc; done.
Qed.

Lemma samples_for_nonneg (pair : string * string) (ps : list (visit * visit)) :
  Forall (λ t, 0 <= t)%Qc (samples_for pair ps).
Proof.
  induction ps as [|p ps IH]; cbn [samples_for]; [constructor|].
  destruct (segment_sample p.1 p.2) as [[t|]|] eqn:Hs; try done.
  case_decide; [|done]. constructor; [by eapply segment_sample_nonneg|done].
Qed.

Lemma py_sum_nonneg (values : list Qc) :
  Forall (λ t, 0 <= t)%Qc values → (0 <= py_sum values)%Qc.
Proof.
  intros Hall. unfold py_sum.
  assert (∀ acc : Qc, (0 <= acc)%Qc → (0 <= fold_left Qcplus values acc)%Qc) as Hacc;
    [|apply Hacc, Qcle_refl].
  induction Hall as [|v values Hv Hall IH]; intros acc Hacc; cbn [fold_left]; [done|].
  apply IH. rewrite <- (Qcplus_0_l 0). by apply Qcplus_le_compat.
Qed.

Lemma mean_nonneg (values : list Qc) :
  Forall (λ t, 0 <= t)%Qc values → (0 <= mean values)%Qc.
Proof.
  intros Hall. unfold mean, Qcdiv.
  rewrite <- (Qcmult_0_l (/ Q2Qc (inject_Z (Z.of_nat (length values))))).
  apply Qcmult_le_compat_r; [by apply py_sum_nonneg|].
  unfold Qcle, Qcinv, Q2Qc. cbn [this]. rewrite !Qred_correct.
  apply Qinv_le_0_compat. unfold Qle. simpl. lia.
Qed.

(** X1: every edge of the graph carries a travel time that is not
    negative. *)
Theorem edge_weights_nonnegative (self : PIDNetwork) (g : graph) (e : edge) :
  _build_graph self = Ok g → e ∈ edges g → (0 <= avg_time_min e)%Qc.
Proof.
  intros H He. apply build_graph_edges in H as (st & Hst & Hedges & _).
  rewrite Hedges, add_edges_flat in He.
  apply edges_fold_origin in He as [He|[_ Havg]]; [by apply elem_of_nil in He|].
  rewrite (avg_segment_time_lookup _ _ _ Hst) in Havg. cbn zeta in Havg.
  pose proof (samples_for_nonneg (e_from e, e_to e) (all_pairs (visits_of self))) as Hall.
  destruct (samples_for _ _); [done|]. injection Havg as <-. by apply mean_nonneg.
Qed.

Lemma edge_weights_nonnegative_witness :
  Forall (λ e, 0 <= avg_time_min e)%Qc (edges (built feed_negative)).
Proof.
  apply Forall_forall. intros e He.
  apply (edge_weights_nonnegative feed_negative (built feed_negative) e);
    [vm_compute; reflexivity | exact He].
Defined.

(** ** Nodes *)

Lemma nodup_add_node (g : graph) (n : string) :
  NoDup (node_names g) → NoDup (node_names (add_node g n)).
Proof.
  unfold add_node, has_node, node_names. case_bool_decide as Hn; cbn [nodes]; [done|].
  intros Hg. rewrite fmap_app. apply NoDup_app. split; [done|]. split.
  - intros m Hm Hm'. apply list_elem_of_singleton in Hm'. simpl in Hm'. by subst.
  - apply NoDup_singleton.
Qed.

Lemma bare_add_node (g : graph) (n : string) : bare g → bare (add_node g n).
Proof.
  unfold add_node, bare. destruct (has_node g n); cbn [nodes]; [done|].
  intros Hg na Hna. apply elem_of_app in Hna as [Hna|Hna]; [by apply Hg|].
  by apply list_elem_of_singleton in Hna as ->.
Qed.

Lemma well_formed_add_edge (g : graph) (u v : string) (w : Qc) :
  NoDup (node_names g) ∧ closed g ∧ bare g →
  NoDup (node_names (add_edge g u v w)) ∧ closed (add_edge g u v w) ∧ bare (add_edge g u v w).
Proof.
  intros (Hnd & Hcl & Hbare). split; [|split].
  - unfold add_edge, node_names. cbn [nodes]. by do 2 apply nodup_add_node.
  - intros e. rewrite edges_add_edge, elem_of_app, list_elem_of_singleton.
    rewrite !node_names_add_edge. intros [He| ->].
    + destruct (Hcl e He). auto.
    + cbn [e_from e_to]. auto.
  - unfold add_edge, bare. cbn [nodes]. by do 2 apply bare_add_node.
Qed.

Lemma well_formed_add_edges (avg : gmap (string * string) Qc) (tbt : list (string * list visit)) :
  NoDup (node_names (add_edges avg tbt)) ∧ closed (add_edges avg tbt) ∧ bare (add_edges avg tbt).
Proof.
  rewrite add_edges_flat.
  assert (NoDup (node_names empty_graph) ∧ closed empty_graph ∧ bare empty_graph) as H0.
  { split; [constructor|]. split; intros x Hx; by apply elem_of_nil in Hx. }
  revert H0. generalize empty_graph.
  induction (pair_names <$> all_pairs tbt) as [|p ps IH]; intros g Hg; cbn [fold_left]; [done|].
  apply IH. unfold edge_step. cbn zeta.
  destruct (avg !! _); [by apply well_formed_add_edge | done].
Qed.

(** X2: in the graph no stop name is a node twice, and both end points
    of every edge are nodes. *)
Theorem nodes_distinct_edges_closed (self : PIDNetwork) (g : graph) :
  _build_graph self = Ok g →
  NoDup (node_names g)
  ∧ ∀ e, e ∈ edges g → e_from e ∈ node_names g ∧ e_to e ∈ node_names g.
Proof.
  intros H. apply build_graph_Ok in H as (tbt & info & st & _ & _ & ->).
  rewrite node_names_set_node_attributes.
  destruct (well_formed_add_edges (avg_segment_time st) tbt) as (Hnd & Hcl & _).
  split; [done|]. intros e He. by apply Hcl.
Qed.

Lemma nodes_distinct_edges_closed_witness :
  NoDup (node_names (built feed_two_routes))
  ∧ Forall (λ e, e_from e ∈ node_names (built feed_two_routes)
                 ∧ e_to e ∈ node_names (built feed_two_routes))
      (edges (built feed_two_routes)).
Proof.
  destruct (nodes_distinct_edges_closed feed_two_routes (built feed_two_routes)) as [Hnd Hcl];
    [vm_compute; reflexivity|].
  split; [exact Hnd|]. apply Forall_forall. exact Hcl.
Defined.

(** X3: a node carries as attributes the coordinates of the first stop of
    its name, among the stops of the valid zones, whose longitude and
    latitude texts [float()] accepts; when there is none, the node is in
    the graph without attributes. *)
Theorem node_attributes_first_coords (self : PIDNetwork) (g : graph)
    (n : string) (a : option (pyfloat * pyfloat)) :
  _build_graph self = Ok g → (n, a) ∈ nodes g →
  a = first_coords float_literal n (stop_rows (stops self)).
Proof.
  intros H Hna. apply build_graph_Ok in H as (tbt & info & st & Hv & _ & ->).
  apply trip_visits_stages in Hv as (_ & _ & _ & _ & _ & _ & _ & Hinfo & _).
  destruct (stop_info_loop (stop_rows (stops self)) ∅) as (info' & Hinfo' & Hfirst).
  { intros r Hr. apply stop_rows_named in Hr as (c & m & ->). by eexists. }
  unfold stop_info_by_name in Hinfo. rewrite Hinfo' in Hinfo. injection Hinfo as ->.
  specialize (Hfirst n). rewrite lookup_empty in Hfirst. rewrite <- Hfirst.
  unfold set_node_attributes in Hna. cbn [nodes] in Hna.
  apply list_elem_of_fmap in Hna as ([m b] & Heq & Hin).
  destruct (well_formed_add_edges (avg_segment_time st) tbt) as (_ & _ & Hbare).
  apply Hbare in Hin as Hb. simpl in Hb, Heq. subst b.
  destruct (info !! m) eqn:Hm; injection Heq as -> ->; by rewrite Hm.
Qed.

Lemma node_attributes_first_coords_witness :
  Forall (λ na, na.2 = first_coords float_literal na.1 (stop_rows (stops feed_negative)))
    (nodes (built feed_negative)).
Proof.
  apply Forall_forall. intros [n a] Hna.
  apply (node_attributes_first_coords feed_negative (built feed_negative) n a);
    [vm_compute; reflexivity | exact Hna].
Defined.

(** ** A feed without selected routes *)

Lemma for_each_unchanged {A S : Type} (body : S → A → result S) (xs : list A) (s : S) :
  (∀ x, x ∈ xs → body s x = Ok s) → for_each body xs s = Ok s.
Proof.
  induction xs as [|x xs IH]; intros H; cbn [for_each]; [done|].
  rewrite H by left. cbn [rbind]. apply IH. intros y Hy. apply H. by right.
Qed.

(** X4: when no route is of type 0 or 1, the construction returns the
    empty graph, whatever the trips, stops and stop times are: no row of
    theirs can make it raise. *)
Theorem no_selected_route_empty_graph (self : PIDNetwork) :
  (∀ r, r ∈ routes self → r !! "route_type" ≠ Some "0" ∧ r !! "route_type" ≠ Some "1") →
  _build_graph self = Ok empty_graph.
Proof.
  intros Hroutes.
  assert (selected_route_ids (routes self) = Ok ∅) as Hids.
  { apply for_each_unchanged. intros r Hr. unfold route_step.
    destruct (get_in r "route_type" route_types) eqn:Hty; [|done].
    apply get_in_true in Hty as (v & Hv & Hin). destruct (Hroutes r Hr) as [H0 H1].
    unfold route_types in Hin.
    apply elem_of_union in Hin as [Hin|Hin]; apply elem_of_singleton in Hin as ->; done. }
  assert (selected_trips ∅ (trips self) = Ok ∅) as Hsel.
  { apply for_each_unchanged. intros r _. unfold select_trip.
    destruct (r !! "route_id"); [|done]. by rewrite bool_decide_eq_false_2. }
  destruct (stop_name_loop (stop_rows (stops self)) ∅) as (names & Hnames & _).
  destruct (stop_info_loop (stop_rows (stops self)) ∅) as (info & Hinfo & _).
  { intros r Hr. apply stop_rows_named in Hr as (c & m & ->). by eexists. }
  unfold _build_graph, trip_visits. rewrite Hids. cbn [rbind]. rewrite Hsel. cbn [rbind].
  cbn zeta. unfold stop_name_by_id, stop_info_by_name. rewrite Hnames, Hinfo. cbn [rbind].
  assert (selected_stop_times (selected_trip_ids ∅) names (stop_times self) = []) as ->.
  { unfold selected_stop_times. induction (stop_times self) as [|r rs IH]; [done|].
    rewrite filter_cons_False; [done|].
    unfold selected_trip_ids, get_in. rewrite map_img_empty_L.
    destruct (r !! "trip_id"); [|done]. by rewrite bool_decide_eq_false_2. }
  done.
Qed.

Lemma no_selected_route_empty_graph_witness :
  _build_graph {| stops := stops feed_bad_minutes;
                  stop_times := stop_times feed_bad_minutes;
                  trips := trips feed_bad_minutes;
                  routes := [route_row "r1" "3"] |} = Ok empty_graph.
Proof.
  apply no_selected_route_empty_graph. intros r Hr. cbn [routes] in Hr.
  apply list_elem_of_singleton in Hr as ->. split; vm_compute; discriminate.
Defined.

(** ** More on sorting *)

Lemma key_lt_irrefl (k : string * Z) : key_lt k k = false.
Proof.
  unfold key_lt. pose proof (String.compare_antisym k.1 k.1) as H.
  destruct (String.compare k.1 k.1); try done. apply Z.ltb_irrefl.
Qed.

Lemma insert_sorted_stable {A : Type} (k : string * Z) (x : (string * Z) * A)
    (l : list ((string * Z) * A)) :
  filter (λ y, y.1 = k) (insert_sorted x l) = filter (λ y, y.1 = k) (x :: l).
Proof.
  induction l as [|y l IH]; cbn [insert_sorted]; [done|].
  destruct (key_lt y.1 x.1) eqn:Hlt; [|done].
  destruct (decide (y.1 = k)) as [Hy|Hy].
  - rewrite (filter_cons_True _ y) by done. rewrite IH.
    assert (x.1 ≠ k) as Hx.
    { intros Hx. rewrite Hy, Hx, key_lt_irrefl in Hlt. done. }
    rewrite !(filter_cons_False _ x) by done. by rewrite filter_cons_True.
  - rewrite (filter_cons_False _ y) by done. rewrite IH.
    destruct (decide (x.1 = k)).
    + rewrite !(filter_cons_True _ x) by done. by rewrite filter_cons_False.
    + rewrite !(filter_cons_False _ x) by done. by rewrite filter_cons_False.
Qed.

Lemma sort_decorated_stable {A : Type} (k : string * Z) (l : list ((string * Z) * A)) :
  filter (λ y, y.1 = k) (sort_decorated l) = filter (λ y, y.1 = k) l.
Proof.
  induction l as [|x l IH]; cbn [sort_decorated]; [done|].
  rewrite insert_sorted_stable.
  destruct (decide (x.1 = k)).
  - rewrite !(filter_cons_True _ x) by done. by rewrite IH.
  - by rewrite !(filter_cons_False _ x).
Qed.

Lemma map_each_decorate_Ok (rows : list row) (dec : list ((string * Z) * row)) :
  map_each (λ r, let* k := sort_key r in Ok (k, r)) rows = Ok dec →
  dec.*2 = rows ∧ Forall (λ kr, sort_key kr.2 = Ok kr.1) dec.
Proof.
  revert dec. induction rows as [|r rows IH]; intros dec; cbn [map_each].
  - by intros [= <-].
  - intros H. apply rbind_Ok in H as ([k r'] & Hk & H).
    apply rbind_Ok in Hk as (k' & Hk & [= <- <-]).
    apply rbind_Ok in H as (dec' & Hdec & [= <-]).
    destruct (IH dec' Hdec) as [<- Hall]. split; [done|]. by constructor.
Qed.

Lemma filter_has_key (k : string * Z) (l : list ((string * Z) * row)) :
  Forall (λ kr, sort_key kr.2 = Ok kr.1) l →
  filter (λ r, has_key k r = true) l.*2 = (filter (λ y, y.1 = k) l).*2.
Proof.
  induction 1 as [|[k' r] l Hk Hall IH]; [done|]. cbn [fmap list_fmap snd].
  simpl in Hk. destruct (decide (k' = k)) as [->|Hne].
  - rewrite !filter_cons_True; [by rewrite IH|done|].
    unfold has_key. rewrite Hk. by apply bool_decide_eq_true.
  - rewrite !filter_cons_False; [done|done|].
    unfold has_key. rewrite Hk. by rewrite bool_decide_eq_false_2.
Qed.

(** X5: the sort is stable: the rows that share a sort key, one trip_id
    and one integer stop_sequence, come out in the order in which they
    came in. *)
Theorem sorted_stop_times_stable (rows out : list row) (k : string * Z) :
  sorted_stop_times rows = Ok out →
  filter (λ r, has_key k r = true) out = filter (λ r, has_key k r = true) rows.
Proof.
  unfold sorted_stop_times. intros H. apply rbind_Ok in H as (dec & Hdec & [= <-]).
  apply map_each_decorate_Ok in Hdec as [<- Hall].
  rewrite !filter_has_key; [|done|by rewrite sort_decorated_perm].
  by rewrite sort_decorated_stable.
Qed.

Lemma sorted_stop_times_stable_witness :
  ∃ out, sorted_stop_times rows_same_sequence = Ok out
    ∧ (λ r : row, r !! "stop_id") <$> filter (λ r, has_key ("t1", 5%Z) r = true) out
      = [Some "a"; Some "b"; Some "c"].
Proof.
  exists (match sorted_stop_times rows_same_sequence with Ok out => out | Raise _ => [] end).
  split; [vm_compute; reflexivity|].
  rewrite (sorted_stop_times_stable rows_same_sequence _ ("t1", 5%Z));
    vm_compute; reflexivity.
Defined.




(** ** The names of the stop ids *)

Lemma stop_name_last (rows : list row) (acc : gmap string string) :
  ∃ names, for_each stop_name_step rows acc = Ok names
    ∧ ∀ sid, names !! sid = match last_stop_name sid rows with
                            | Some n => Some n
                            | None => acc !! sid
                            end.
Proof.
  revert acc. induction rows as [|r rows IH]; intros acc; cbn [for_each last_stop_name].
  - by exists acc.
  - unfold stop_name_step at 1, getitem.
    destruct (r !! "stop_id") as [[|c sid0]|] eqn:Hid; cbn [truthy andb rbind].
    1,3: destruct (IH acc) as (names & -> & Hnames); exists names; (split; [done|]);
      intros sid; rewrite Hnames; destruct (last_stop_name sid rows); [done|];
      rewrite bool_decide_eq_false_2; [done|]; intros ([= <-] & ? & _); done.
    destruct (r !! "stop_name") as [[|c' n]|] eqn:Hname; cbn [truthy rbind].
    1,3: destruct (IH acc) as (names & -> & Hnames); exists names; (split; [done|]);
      intros sid; rewrite Hnames; destruct (last_stop_name sid rows); [done|];
      rewrite bool_decide_eq_false_2; [done|]; intros (_ & _ & ?); done.
    destruct (IH (<[String c sid0 := String c' n]> acc)) as (names & -> & Hnames).
    exists names. split; [done|]. intros sid. rewrite Hnames.
    destruct (last_stop_name sid rows); [done|].
    destruct (decide (String c sid0 = sid)) as [<-|Hne].
    + rewrite lookup_insert_eq. by rewrite bool_decide_eq_true_2.
    + rewrite lookup_insert_ne by done. rewrite bool_decide_eq_false_2; [done|].
      intros ([= ?] & _). done.
Qed.

(** X7: the stop_id→name map gives a stop_id the name of the last stop in
    scan order with that id, among the stops of the valid zones with a
    name: a later row overwrites an earlier one. *)
Theorem stop_name_by_id_last_wins (ss : list row) :
  ∃ names, stop_name_by_id (stop_rows ss) = Ok names
    ∧ ∀ sid, names !! sid = last_stop_name sid (stop_rows ss).
Proof.
  destruct (stop_name_last (stop_rows ss) ∅) as (names & Hnames & Hlast).
  exists names. split; [done|]. intros sid. rewrite Hlast, lookup_empty.
  by destruct (last_stop_name sid (stop_rows ss)).
Qed.

(** ** Grouping the stop times by trip *)

Lemma group_of_append_at {V : Type} (t k : string) (v : V) (d : list (string * list V)) :
  group_of t (append_at k v d) =
    if decide (t = k) then (group_of k d ++ [v])%list else group_of t d.
Proof.
  induction d as [|[k' vs] d IH]; cbn [append_at group_of].
  - by destruct (decide (t = k)).
  - destruct (decide (k = k')) as [<-|Hk]; cbn [group_of].
    + by destruct (decide (t = k)).
    + rewrite IH. destruct (decide (t = k')) as [->|Ht]; [|done].
      by rewrite decide_False.
Qed.

Lemma keys_append_at {V : Type} (k : string) (v : V) (d : list (string * list V)) :
  (append_at k v d).*1 = if decide (k ∈ d.*1) then d.*1 else (d.*1 ++ [k])%list.
Proof.
  induction d as [|[k' vs] d IH]; cbn [append_at fmap list_fmap fst].
  - rewrite decide_False; [done|]. apply not_elem_of_nil.
  - destruct (decide (k = k')) as [<-|Hk]; cbn [fmap list_fmap fst].
    + rewrite decide_True; [done|]. left.
    + change (list_fmap _ _ fst (append_at k v d)) with ((append_at k v d).*1).
      rewrite IH. change (list_fmap _ _ fst d) with (d.*1).
      destruct (decide (k ∈ d.*1)) as [Hin|Hin].
      * rewrite decide_True; [done|]. by right.
      * rewrite decide_False; [done|]. intros H. apply elem_of_cons in H as [?|?]; done.
Qed.

Lemma group_of_elem {V : Type} (d : list (string * list V)) (t : string) (vs : list V) :
  NoDup d.*1 → ((t, vs) ∈ d ↔ t ∈ d.*1 ∧ vs = group_of t d).
Proof.
  induction d as [|[k ws] d IH]; cbn [fmap list_fmap fst group_of].
  - intros _. split; [intros H; by apply elem_of_nil in H|]. intros [H _]. by apply elem_of_nil in H.
  - change (list_fmap _ _ fst d) with (d.*1). intros Hnd. apply NoDup_cons in Hnd as [Hk Hnd].
    rewrite !elem_of_cons, (IH Hnd). destruct (decide (t = k)) as [->|Ht].
    + split.
      * intros [[= ->]|[Hin _]]; [auto|done].
      * intros [_ ->]. by left.
    + split.
      * intros [[= ? ?]|[Hin Hvs]]; [done|auto].
      * intros [[?|Hin] Hvs]; [done|auto].
Qed.

Lemma times_by_trip_loop (names : gmap string string) (rows : list row)
    (acc : list (string * list visit)) :
  (∀ r, r ∈ rows → is_Some (to_visit names r)) →
  ∃ tbt, for_each (λ acc r,
           let* trip_id := getitem r "trip_id" in
           let* stop_id := getitem r "stop_id" in
           match names !! stop_id with
           | None => Raise (KeyError stop_id)
           | Some name =>
               Ok (append_at trip_id
                     {| stop_name := name;
                        arrival := get_default r "arrival_time" "";
                        departure := get_default r "departure_time" "" |} acc)
           end) rows acc = Ok tbt
    ∧ (∀ t, group_of t tbt = (group_of t acc ++ visits_of_trip names t rows)%list)
    ∧ (NoDup acc.*1 → NoDup tbt.*1)
    ∧ (∀ t, t ∈ tbt.*1 ↔ t ∈ acc.*1 ∨ visits_of_trip names t rows ≠ []).
Proof.
  match goal with |- context [for_each ?f _ _] => set (body := f) end.
  revert acc. induction rows as [|r rows IH]; intros acc Hrows; cbn [for_each].
  - exists acc. split; [done|]. split; [intros t; by rewrite app_nil_r|]. split; [done|].
    intros t. split; [by left|]. by intros [?|?].
  - destruct (Hrows r) as [[t0 v0] Hr]; [left|].
    assert (∀ r', r' ∈ rows → is_Some (to_visit names r')) as Hrows'
      by (intros; apply Hrows; by right).
    unfold visits_of_trip. cbn [omap list_omap]. rewrite Hr.
    unfold to_visit in Hr. unfold body at 1. cbn beta. unfold getitem, get_default.
    destruct (r !! "trip_id") as [tid|]; [|done]. destruct (r !! "stop_id") as [sid|]; [|done].
    cbn [rbind]. destruct (names !! sid) as [name|]; [|done]. injection Hr as <- <-.
    cbn [rbind].
    destruct (IH (append_at tid {| stop_name := name;
                                   arrival := default "" (r !! "arrival_time");
                                   departure := default "" (r !! "departure_time") |} acc)
                Hrows') as (tbt & -> & Hgroup & Hnd & Hkeys).
    exists tbt. split; [done|]. split; [|split].
    + intros t. rewrite Hgroup, group_of_append_at. fold (visits_of_trip names t rows).
      destruct (decide (tid = t)) as [->|Hne].
      * rewrite decide_True by done. by rewrite <- app_assoc.
      * by rewrite decide_False by done.
    + intros Hacc. apply Hnd. rewrite keys_append_at. case_decide as Hin; [done|].
      apply NoDup_app. split; [done|]. split; [|apply NoDup_singleton].
      intros k Hk Hk'. by apply list_elem_of_singleton in Hk' as ->.
    + intros t. rewrite Hkeys, keys_append_at. fold (visits_of_trip names t rows).
      destruct (decide (tid = t)) as [->|Hne].
      * split; [intros _; by right|]. intros _. left.
        case_decide; [done|]. apply elem_of_app. right. by apply list_elem_of_singleton.
      * split.
        -- intros [Hin|?]; [|by right]. left. case_decide; [done|].
           apply elem_of_app in Hin as [?|Hin]; [done|].
           by apply list_elem_of_singleton in Hin.
        -- intros [Hin|?]; [|by right]. left. case_decide; [done|].
           apply elem_of_app. by left.
Qed.

(** X8: when every row has a trip_id and a stop_id with a known name,
    grouping never raises: each trip with at least one row is one key,
    no key appears twice, and the list under a trip is made of exactly
    the visits of its rows, in the order of the rows. *)
Theorem times_by_trip_groups (names : gmap string string) (rows : list row) :
  (∀ r, r ∈ rows → is_Some (to_visit names r)) →
  ∃ tbt, times_by_trip names rows = Ok tbt
    ∧ NoDup tbt.*1
    ∧ ∀ t vs, (t, vs) ∈ tbt ↔ vs = visits_of_trip names t rows ∧ vs ≠ [].
Proof.
  intros Hrows.
  destruct (times_by_trip_loop names rows [] Hrows) as (tbt & Htbt & Hgroup & Hnd & Hkeys).
  exists tbt. split; [done|]. specialize (Hnd (NoDup_nil_2 : NoDup ([] : list (string * list visit)).*1)).
  split; [done|]. intros t vs. rewrite (group_of_elem tbt t vs Hnd), Hkeys, Hgroup.
  cbn [group_of app]. split.
  - intros [[Hin|Hne] ->]; [by apply elem_of_nil in Hin|done].
  - intros [-> Hne]. split; [by right|done].
Qed.

Lemma times_by_trip_groups_witness :
  ∃ tbt, times_by_trip names_AB rows_two_trips = Ok tbt
    ∧ tbt.*1 = ["t2"; "t1"]
    ∧ ∀ vs, ("t2", vs) ∈ tbt ↔ vs = visits_of_trip names_AB "t2" rows_two_trips ∧ vs ≠ [].
Proof.
  destruct (times_by_trip_groups names_AB rows_two_trips) as (tbt & Htbt & _ & Hgroups).
  - intros r Hr. unfold rows_two_trips in Hr.
    repeat (apply elem_of_cons in Hr as [->|Hr]; [eexists; vm_compute; reflexivity|]).
    by apply elem_of_nil in Hr.
  - exists tbt. split; [exact Htbt|]. split; [|exact (Hgroups "t2")].
    vm_compute in Htbt. injection Htbt as <-. reflexivity.
Defined.

Lemma stop_name_by_id_last_wins_witness :
  ∃ names, stop_name_by_id (stop_rows stops_renamed) = Ok names
    ∧ names !! "s1" = Some "New name".
Proof.
  destruct (stop_name_by_id_last_wins stops_renamed) as (names & Hnames & Hlast).
  exists names. split; [exact Hnames|]. rewrite Hlast. vm_compute. reflexivity.
Defined.

(** ** Rows that are not selected *)

(** X9: stop times whose trip is not selected have no part in the
    result: with them or without them, wherever they stand and whatever
    their other fields hold, the construction returns the same graph or
    raises the same exception. *)
Theorem unselected_stop_times_ignored (self : PIDNetwork) (sts1 junk sts2 : list row) :
  (∀ ids sel, selected_route_ids (routes self) = Ok ids →
              selected_trips ids (trips self) = Ok sel →
              ∀ r, r ∈ junk → get_in r "trip_id" (selected_trip_ids sel) = false) →
  _build_graph (with_stop_times self (sts1 ++ junk ++ sts2))
  = _build_graph (with_stop_times self (sts1 ++ sts2)).
Proof.
  intros Hjunk. unfold _build_graph, trip_visits, with_stop_times. cbn [routes trips stops stop_times].
  destruct (selected_route_ids (routes self)) as [ids|] eqn:Hids; cbn [rbind]; [|done].
  destruct (selected_trips ids (trips self)) as [sel|] eqn:Hsel; cbn [rbind]; [|done].
  cbn zeta.
  destruct (stop_name_by_id (stop_rows (stops self))) as [names|]; cbn [rbind]; [|done].
  destruct (stop_info_by_name (stop_rows (stops self))) as [info|]; cbn [rbind]; [|done].
  assert (selected_stop_times (selected_trip_ids sel) names (sts1 ++ junk ++ sts2)
          = selected_stop_times (selected_trip_ids sel) names (sts1 ++ sts2)) as ->; [|done].
  unfold selected_stop_times. rewrite !filter_app.
  assert (filter (λ r, get_in r "trip_id" (selected_trip_ids sel)
                       && get_in r "stop_id" (dom names) = true) junk = []) as ->; [|done].
  specialize (Hjunk ids sel eq_refl Hsel).
  induction junk as [|r junk IH]; [done|].
  rewrite filter_cons_False.
  - apply IH. intros r' Hr'. apply Hjunk. by right.
  - rewrite (Hjunk r) by left. done.
Qed.

Lemma unselected_stop_times_ignored_witness :
  _build_graph (with_stop_times feed_one_trip
                  (take 1 (stop_times feed_one_trip) ++ rows_unselected
                   ++ drop 1 (stop_times feed_one_trip)))
  = _build_graph (with_stop_times feed_one_trip
                    (take 1 (stop_times feed_one_trip) ++ drop 1 (stop_times feed_one_trip))).
Proof.
  apply unselected_stop_times_ignored.
  intros ids sel Hids Hsel r Hr.
  vm_compute in Hids. injection Hids as <-. vm_compute in Hsel. injection Hsel as <-.
  unfold rows_unselected in Hr.
  repeat (apply elem_of_cons in Hr as [->|Hr]; [vm_compute; reflexivity|]).
  by apply elem_of_nil in Hr.
Defined.

(** ** The time parser, all cases *)


(** ** Well-formed feeds *)



Lemma elem_of_consecutive {A : Type} (l : list A) (p : A * A) :
  p ∈ consecutive l → p.1 ∈ l ∧ p.2 ∈ l.
Proof.
  unfold consecutive. destruct p as [x y]. intros H. split.
  - by apply elem_of_zip_l in H.
  - apply elem_of_zip_r in H. destruct l; [done|]. by right.
Qed.

Lemma elem_of_all_pairs (tbt : list (string * list visit)) (p : visit * visit) :
  p ∈ all_pairs tbt → ∃ t vs, (t, vs) ∈ tbt ∧ p.1 ∈ vs ∧ p.2 ∈ vs.
Proof.
  unfold all_pairs. induction tbt as [|[t vs] tbt IH]; cbn [fmap list_fmap concat].
  - intros H. by apply elem_of_nil in H.
  - intros H. apply elem_of_app in H as [H|H].
    + exists t, vs. split; [left|]. by apply elem_of_consecutive.
    + destruct (IH H) as (t' & vs' & Hin & H12). exists t', vs'. split; [by right|done].
Qed.

Lemma elem_of_visits_of_trip (names : gmap string string) (t : string) (rows : list row)
    (v : visit) :
  v ∈ visits_of_trip names t rows → ∃ r, r ∈ rows ∧ to_visit names r = Some (t, v).
Proof.
  unfold visits_of_trip. intros H. apply list_elem_of_omap in H as (r & Hr & Hv).
  exists r. split; [done|]. destruct (to_visit names r) as [[t' v']|]; [|done].
  case_decide; [|done]. by simplify_eq.
Qed.



(** ** Caching the dataset *)

Lemma extract_required_lookup (members : gmap string string) (names : list string)
    (fs fs' : gmap string file) (raised : option io_exn) :
  extract_required members names fs = (fs', raised) →
  ∃ pre rest,
    names = (pre ++ rest)%list
    ∧ (∀ n, n ∈ pre → is_Some (members !! n))
    ∧ (∀ n, fs' !! n = if decide (n ∈ pre) then TextFile <$> members !! n else fs !! n)
    ∧ match raised with
      | None => rest = []
      | Some e => ∃ name post, rest = name :: post ∧ members !! name = None
                    ∧ e = FileNotFoundError ("Missing required file in ZIP: " ++ name)
      end.
Proof.
  revert fs. induction names as [|name names IH]; intros fs; cbn [extract_required].
  - intros [= <- <-]. exists [], []. repeat split; try done.
    intros n Hn. by apply elem_of_nil in Hn.
  - destruct (members !! name) as [content|] eqn:Hname.
    + intros H. apply IH in H as (pre & rest & -> & Hpre & Hfs & Hraised).
      exists (name :: pre), rest. split; [done|]. split; [|split; [|done]].
      * intros n Hn. apply elem_of_cons in Hn as [->|Hn]; [by eexists|by apply Hpre].
      * intros n. rewrite Hfs. destruct (decide (n = name)) as [->|Hne].
        -- rewrite (decide_True (P := name ∈ name :: pre)) by left.
           case_decide; [done|]. by rewrite lookup_insert_eq, Hname.
        -- rewrite lookup_insert_ne by done.
           destruct (decide (n ∈ pre)) as [Hin|Hin].
           ++ rewrite decide_True; [done|by right].
           ++ rewrite decide_False; [done|]. intros H. by apply elem_of_cons in H as [?|?].
    + intros [= <- <-]. exists [], (name :: names). split; [done|]. split; [|split].
      * intros n Hn. by apply elem_of_nil in Hn.
      * intros n. rewrite decide_False; [done|]. apply not_elem_of_nil.
      * by exists name, names.
Qed.

Lemma ensure_cached_files_hit (served : file) (s : cache_state) :
  (∀ name, name ∈ required_files → is_Some (files s !! name)) →
  _ensure_cached_files served s = (print "[OK] Using cached PID GTFS files" s, None).
Proof.
  intros Hall. unfold _ensure_cached_files.
  assert (filter (λ name, exists_file (files s) name = false) required_files = []) as ->; [|done].
  assert (∀ name, name ∈ required_files → exists_file (files s) name ≠ false) as Hex.
  { intros name Hname. unfold exists_file. rewrite bool_decide_eq_true_2 by auto. done. }
  revert Hex. generalize required_files. intros l. induction l as [|n l IH]; intros Hex; [done|].
  rewrite filter_cons_False by (apply Hex; left). apply IH. intros m Hm. apply Hex. by right.
Qed.

Lemma ensure_cached_files_miss (served : file) (s : cache_state) :
  (∃ name, name ∈ required_files ∧ files s !! name = None) →
  _ensure_cached_files served s =
    let s1 := print "[INFO] Extracting required GTFS files..."
                {| files := <["PID_GTFS.zip" := served]>
                              (delete "PID_GTFS.zip.tmp"
                                 (<["PID_GTFS.zip.tmp" := served]> (files s)));
                   stderr := stderr (print "[INFO] Downloading PID GTFS dataset..." s) |} in
    match files s1 !! "PID_GTFS.zip" with
    | Some (ZipFile members) =>
        let '(extracted, raised) := extract_required members required_files (files s1) in
        match raised with
        | Some e => ({| files := extracted; stderr := stderr s1 |}, Some e)
        | None =>
            (print "[OK] Dataset cached" {| files := extracted; stderr := stderr s1 |}, None)
        end
    | _ => (s1, Some BadZipFile)
    end.
Proof.
  intros (name & Hname & Hnone). unfold _ensure_cached_files.
  destruct (filter (λ name, exists_file (files s) name = false) required_files) as [|m ms] eqn:Hf;
    [|done].
  assert (name ∈ filter (λ name, exists_file (files s) name = false) required_files) as Hin.
  { apply list_elem_of_filter. split; [|done]. unfold exists_file.
    rewrite bool_decide_eq_false_2; [done|]. rewrite Hnone. by intros [? ?]. }
  rewrite Hf in Hin. by apply elem_of_nil in Hin.
Qed.

(** X12: when a required file is missing from the cache and the served
    archive has the four of them, the call returns and leaves each of the
    four with the content of its member in the archive, those that were
    cached before too; the archive is kept as PID_GTFS.zip, no temporary
    file is left, and the other files of the cache are as before. *)
Theorem ensure_cached_files_download (members : gmap string string) (s : cache_state) :
  (∃ name, name ∈ required_files ∧ files s !! name = None) →
  (∀ name, name ∈ required_files → is_Some (members !! name)) →
  ∃ s', _ensure_cached_files (ZipFile members) s = (s', None)
    ∧ (∀ name, name ∈ required_files → files s' !! name = (TextFile <$> members !! name))
    ∧ files s' !! "PID_GTFS.zip" = Some (ZipFile members)
    ∧ files s' !! "PID_GTFS.zip.tmp" = None
    ∧ (∀ name, name ∉ required_files → name ≠ "PID_GTFS.zip" → name ≠ "PID_GTFS.zip.tmp" →
         files s' !! name = files s !! name)
    ∧ stderr s' = (stderr s ++ ["[INFO] Downloading PID GTFS dataset...";
                                "[INFO] Extracting required GTFS files...";
                                "[OK] Dataset cached"])%list.
Proof.
  intros Hmiss Hall. rewrite (ensure_cached_files_miss _ _ Hmiss). cbn zeta.
  cbn [print files stderr]. rewrite lookup_insert_eq.
  destruct (extract_required members required_files _) as [fs' raised] eqn:Hex.
  apply extract_required_lookup in Hex as (pre & rest & Hnames & Hpre & Hfs & Hraised).
  destruct raised as [e|].
  { destruct Hraised as (name & post & -> & Hnone & _).
    destruct (Hall name) as [c Hc]; [|congruence].
    rewrite Hnames. apply elem_of_app. right. left. }
  subst rest. rewrite app_nil_r in Hnames. subst pre.
  eexists. split; [done|]. cbn [print files stderr].
  assert (("PID_GTFS.zip" ∉ required_files) ∧ ("PID_GTFS.zip.tmp" ∉ required_files)) as [Hz Ht].
  { split; intros H; unfold required_files in H;
      repeat (apply elem_of_cons in H as [H|H]; [discriminate H|]); by apply elem_of_nil in H. }
  split; [|split; [|split; [|split]]].
  - intros name Hname. by rewrite Hfs, decide_True.
  - by rewrite Hfs, decide_False, lookup_insert_eq.
  - rewrite Hfs, decide_False, lookup_insert_ne, lookup_delete_eq by done. done.
  - intros name Hname Hnz Hnt.
    rewrite Hfs, decide_False, lookup_insert_ne, lookup_delete_ne, lookup_insert_ne by done.
    done.
  - by rewrite <- !app_assoc.
Qed.

Lemma ensure_cached_files_download_witness :
  ∃ s', _ensure_cached_files (ZipFile archive_full) cache_routes_only = (s', None)
    ∧ files s' !! "routes.txt" = Some (TextFile "O")
    ∧ files s' !! "stops.txt" = Some (TextFile "S").
Proof.
  destruct (ensure_cached_files_download archive_full cache_routes_only)
    as (s' & Hs' & Hfiles & _).
  - exists "stops.txt". split; [|by vm_compute].
    unfold required_files. apply elem_of_cons. by left.
  - intros name Hname. unfold required_files in Hname.
    repeat (apply elem_of_cons in Hname as [->|Hname]; [eexists; vm_compute; reflexivity|]).
    by apply elem_of_nil in Hname.
  - exists s'. split; [exact Hs'|]. split.
    + rewrite Hfiles; [by vm_compute|]. unfold required_files. rewrite !elem_of_cons. auto.
    + rewrite Hfiles; [by vm_compute|]. unfold required_files. rewrite !elem_of_cons. auto.
Defined.

(** X13: when a required file is missing from the cache and from the
    served archive, the call raises [FileNotFoundError] for the first
    required file, in the order stops, stop_times, trips, routes, that the
    archive lacks; the required files before it have been extracted, the
    other files of the cache are as before, and the archive is kept as
    PID_GTFS.zip. *)
Theorem ensure_cached_files_incomplete (members : gmap string string) (s : cache_state)
    (pre post : list string) (name : string) :
  (∃ name, name ∈ required_files ∧ files s !! name = None) →
  required_files = (pre ++ name :: post)%list →
  (∀ n, n ∈ pre → is_Some (members !! n)) →
  members !! name = None →
  ∃ s', _ensure_cached_files (ZipFile members) s
        = (s', Some (FileNotFoundError ("Missing required file in ZIP: " ++ name)))
    ∧ (∀ n, n ∈ pre → files s' !! n = (TextFile <$> members !! n))
    ∧ (∀ n, n ∉ pre → n ≠ "PID_GTFS.zip" → n ≠ "PID_GTFS.zip.tmp" →
         files s' !! n = files s !! n)
    ∧ files s' !! "PID_GTFS.zip" = Some (ZipFile members).
Proof.
  intros Hmiss Hnames Hpre Hnone. rewrite (ensure_cached_files_miss _ _ Hmiss). cbn zeta.
  cbn [print files stderr]. rewrite lookup_insert_eq.
  destruct (extract_required members required_files _) as [fs' raised] eqn:Hex.
  apply extract_required_lookup in Hex as (pre' & rest & Hnames' & Hpre' & Hfs & Hraised).
  assert (pre' = pre ∧ rest = name :: post) as [-> ->].
  { rewrite Hnames in Hnames'. clear Hfs Hnames. revert pre' Hnames' Hpre'.
    induction pre as [|p pre IH]; intros [|p' pre'] Heq Hpre'; cbn [app] in Heq.
    - by destruct raised.
    - injection Heq as <- _. destruct (Hpre' name) as [c Hc]; [left|congruence].
    - destruct raised as [e|]; [|by subst rest].
      destruct Hraised as (name' & post' & -> & Hnone' & _). injection Heq as -> _.
      destruct (Hpre name') as [c Hc]; [left|congruence].
    - injection Heq as <- Heq. destruct (IH (λ n Hn, Hpre n (list_elem_of_further _ _ _ Hn))
                                           pre' Heq) as [-> ->].
      { intros n Hn. apply Hpre'. by right. }
      done. }
  destruct raised as [e|]; [|done].
  destruct Hraised as (name' & post' & [= <- <-] & _ & ->).
  eexists. split; [done|]. cbn [files].
  assert ("PID_GTFS.zip" ∉ pre) as Hz.
  { intros H. assert ("PID_GTFS.zip" ∈ required_files) as H'
      by (rewrite Hnames; apply elem_of_app; by left).
    unfold required_files in H'.
    repeat (apply elem_of_cons in H' as [H'|H']; [discriminate H'|]). by apply elem_of_nil in H'. }
  split; [|split].
  - intros n Hn. by rewrite Hfs, decide_True.
  - intros n Hn Hnz Hnt.
    rewrite Hfs, decide_False, lookup_insert_ne, lookup_delete_ne, lookup_insert_ne by done.
    done.
  - by rewrite Hfs, decide_False, lookup_insert_eq.
Qed.

Lemma ensure_cached_files_incomplete_witness :
  ∃ s', _ensure_cached_files (ZipFile archive_no_trips) cache_routes_only
        = (s', Some (FileNotFoundError "Missing required file in ZIP: trips.txt"))
    ∧ files s' !! "stops.txt" = Some (TextFile "S")
    ∧ files s' !! "routes.txt" = Some (TextFile "route_id,route_type").
Proof.
  destruct (ensure_cached_files_incomplete archive_no_trips cache_routes_only
              ["stops.txt"; "stop_times.txt"] ["routes.txt"] "trips.txt")
    as (s' & Hs' & Hpre & Hother & _).
  - exists "stops.txt". split; [|by vm_compute].
    unfold required_files. apply elem_of_cons. by left.
  - reflexivity.
  - intros n Hn.
    repeat (apply elem_of_cons in Hn as [->|Hn]; [eexists; vm_compute; reflexivity|]).
    by apply elem_of_nil in Hn.
  - by vm_compute.
  - exists s'. split; [exact Hs'|]. split.
    + rewrite Hpre; [by vm_compute|]. apply elem_of_cons. by left.
    + rewrite Hother; [by vm_compute| |done..].
      intros Hn. repeat (apply elem_of_cons in Hn as [Hn|Hn]; [discriminate Hn|]).
      by apply elem_of_nil in Hn.
Defined.

(** X14: a call that returns leaves the four required files in the
    cache, so that the next call downloads nothing and changes no file,
    whatever the server offers by then. *)
Theorem ensure_cached_files_then_hit (served served' : file) (s s' : cache_state) :
  _ensure_cached_files served s = (s', None) →
  (∀ name, name ∈ required_files → is_Some (files s' !! name))
  ∧ _ensure_cached_files served' s' = (print "[OK] Using cached PID GTFS files" s', None).
Proof.
  intros H.
  assert (∀ name, name ∈ required_files → is_Some (files s' !! name)) as Hall;
    [|split; [done|by apply ensure_cached_files_hit]].
  destruct (decide (Forall (λ name, is_Some (files s !! name)) required_files)) as [Hhit|Hmiss].
  - rewrite Forall_forall in Hhit. rewrite (ensure_cached_files_hit _ _ Hhit) in H.
    injection H as <-. exact Hhit.
  - apply not_Forall_Exists in Hmiss; [|apply _]. apply list.Exists_exists in Hmiss as (m & Hm & Hnone).
    simpl in Hnone.
    rewrite (ensure_cached_files_miss served s) in H.
    2:{ exists m. split; [done|]. destruct (files s !! m); [|done]. destruct Hnone. by eexists. }
    cbn zeta in H. cbn [print files stderr] in H. rewrite lookup_insert_eq in H.
    destruct served as [c|members]; [done|].
    destruct (extract_required members required_files _) as [fs' raised] eqn:Hex.
    destruct raised as [e|]; [done|]. injection H as <-. cbn [print files].
    apply extract_required_lookup in Hex as (pre & rest & Hnames & Hpre & Hfs & ->).
    rewrite app_nil_r in Hnames. subst pre.
    intros name Hname. rewrite Hfs, decide_True by done.
    destruct (Hpre name Hname) as [c ->]. by eexists.
Qed.

Lemma ensure_cached_files_then_hit_witness :
  _ensure_cached_files (ZipFile archive_no_trips)
    (_ensure_cached_files (ZipFile archive_full) cache_routes_only).1
  = (print "[OK] Using cached PID GTFS files"
       (_ensure_cached_files (ZipFile archive_full) cache_routes_only).1, None).
Proof.
  apply (ensure_cached_files_then_hit (ZipFile archive_full) (ZipFile archive_no_trips)
           cache_routes_only).
  vm_compute. reflexivity.
Defined.

(** ** Where the nodes come from *)

Lemma times_by_trip_Ok_rows (names : gmap string string) (rows : list row)
    (tbt : list (string * list visit)) :
  times_by_trip names rows = Ok tbt → ∀ r, r ∈ rows → is_Some (to_visit names r).
Proof.
  unfold times_by_trip. generalize ([] : list (string * list visit)).
  induction rows as [|r rows IH]; intros acc H r' Hr'; [by apply elem_of_nil in Hr'|].
  cbn [for_each] in H. apply rbind_Ok in H as (acc' & Hbody & H).
  apply elem_of_cons in Hr' as [->|Hr']; [|by eapply IH].
  unfold getitem in Hbody. unfold to_visit.
  destruct (r !! "trip_id"); [|done]. destruct (r !! "stop_id") as [sid|]; [|done].
  cbn [rbind] in Hbody. destruct (names !! sid); [by eexists|done].
Qed.

Lemma last_stop_name_elem (sid n : string) (rows : list row) :
  last_stop_name sid rows = Some n →
  ∃ r, r ∈ rows ∧ r !! "stop_id" = Some sid ∧ r !! "stop_name" = Some n.
Proof.
  induction rows as [|r rows IH]; cbn [last_stop_name]; [done|].
  destruct (last_stop_name sid rows) as [m|].
  - intros [= ->]. destruct (IH eq_refl) as (r' & Hr' & H'). exists r'. split; [by right|done].
  - case_bool_decide as Hr; [|done]. intros Hn. exists r. split; [left|]. by destruct Hr.
Qed.

(** X15: every node of the graph is the name of a stop of the stops
    table whose zone_id is one of 0, P, B, "0,B" and "P,0". *)
Theorem nodes_are_valid_zone_stops (self : PIDNetwork) (g : graph) (n : string) :
  _build_graph self = Ok g → n ∈ node_names g →
  ∃ r, r ∈ stops self ∧ r !! "stop_name" = Some n
       ∧ ∃ z, r !! "zone_id" = Some z ∧ z ∈ valid_zone_ids.
Proof.
  intros H Hn. apply build_graph_Ok in H as (tbt & info & st & Hv & _ & ->).
  rewrite node_names_set_node_attributes, add_edges_flat in Hn.
  destruct (covered_fold (avg_segment_time st) (pair_names <$> all_pairs tbt)
              empty_graph covered_empty n Hn) as (e & Hin & Hend).
  apply edges_fold_origin in Hin as [Hin|[Hp _]]; [by apply elem_of_nil in Hin|].
  apply list_elem_of_fmap in Hp as (p & Hnames & Hp).
  apply elem_of_all_pairs in Hp as (t & vs & Htbt & H1 & H2).
  assert (∃ v, v ∈ vs ∧ stop_name v = n) as (v & Hvs & <-).
  { unfold pair_names in Hnames. injection Hnames as Hf Ht.
    destruct Hend as [<-|<-]; [exists p.1|exists p.2]; by split. }
  apply trip_visits_stages in Hv as (_ & _ & names & rows & _ & _ & Hnm & _ & _ & Hgroup).
  pose proof (times_by_trip_Ok_rows _ _ _ Hgroup) as Hrows.
  destruct (times_by_trip_loop names rows [] Hrows) as (tbt' & Htbt' & Hg & Hnd & _).
  unfold times_by_trip in Hgroup. rewrite Htbt' in Hgroup. injection Hgroup as ->.
  specialize (Hnd (NoDup_nil_2 : NoDup ([] : list (string * list visit)).*1)).
  apply (group_of_elem tbt t vs Hnd) in Htbt as [_ ->]. rewrite Hg in Hvs.
  cbn [group_of app] in Hvs. apply elem_of_visits_of_trip in Hvs as (r & _ & Htv).
  unfold to_visit in Htv. destruct (r !! "trip_id"); [|done].
  destruct (r !! "stop_id") as [sid|]; [|done].
  destruct (names !! sid) as [name|] eqn:Hname; [|done]. injection Htv as _ <-. cbn [stop_name].
  destruct (stop_name_last (stop_rows (stops self)) ∅) as (names' & Hnames' & Hlast).
  unfold stop_name_by_id in Hnm. rewrite Hnames' in Hnm. injection Hnm as ->.
  rewrite Hlast in Hname. destruct (last_stop_name sid _) as [m|] eqn:Hm; [|done].
  injection Hname as ->. apply last_stop_name_elem in Hm as (r' & Hr' & _ & Hname').
  unfold stop_rows in Hr'. apply list_elem_of_filter in Hr' as [Hp Hr'].
  exists r'. split; [done|]. split; [done|].
  apply andb_true_iff in Hp as [Hz _]. by apply get_in_true in Hz.
Qed.

Lemma nodes_are_valid_zone_stops_witness :
  Forall (λ n, ∃ r, r ∈ stops feed_one_trip ∧ r !! "stop_name" = Some n
                    ∧ ∃ z, r !! "zone_id" = Some z ∧ z ∈ valid_zone_ids)
    (node_names (built feed_one_trip)).
Proof.
  apply Forall_forall. intros n Hn.
  apply (nodes_are_valid_zone_stops feed_one_trip (built feed_one_trip) n);
    [vm_compute; reflexivity | exact Hn].
Defined.
